(** * The job agents of MARO's local process mode

    A shallow embedding of [maro/cli/process/agent/job_agent.py]: the
    pending-job scheduler ([PendingJobAgent]), the liveness tracker with its
    idle-shutdown policy ([JobTrackingAgent]) and the kill-ticket processor
    ([KilledJobAgent]).

    The agents share nothing but a Redis store.  The store is modelled
    concretely: the two ticket lists, the details and settings hashes, and
    the running-job hash.  What is stored is text; it is modelled by what
    [json.loads] or [int] make of it, with a case for text they reject.

    The operating system is an interface ([OS]): the calls of [os],
    [subprocess] and [psutil], and the two helpers of
    [maro.cli.process.utils.details] that are not part of this file.

    A method is a function on a state (store, operating system, trace,
    and the tracker's counter) that returns or raises.  Every write to the
    store and every action on the operating system is appended to the
    trace, so that what was done, and in which order, can be stated; a call
    the operating system refuses raises and leaves no entry.  The
    [while True] of an agent is unrolled along a schedule that says what the
    rest of the world did during each [time.sleep]. *)

From Stdlib Require Import ZArith Ascii String List Lia.
From stdpp Require Import base gmap strings list fin_maps pretty.

Local Open Scope Z_scope.
Set Warnings "-register-all".

(** ** Python values and exceptions *)

(** What [json.loads] returns.  Floats are left out: no value handled by the
    agents is one. *)
Inductive json : Type :=
| JNull
| JBool (b : bool)
| JInt (z : Z)
| JStr (s : string)
| JList (l : list json)
| JDict (d : list (string * json)).

Inductive exn : Type :=
| TypeError
| KeyError (key : string)
| AttributeError
| ValueError
| JSONDecodeError
| DataError
| ProcessLookupError
| OSError.

(** A Python [dict] keeps insertion order: an association list, read at the
    first binding of the key. *)
Fixpoint dict_get {V : Type} (k : string) (d : list (string * V)) : option V :=
  match d with
  | [] => None
  | (k', v) :: d' => if decide (k' = k) then Some v else dict_get k d'
  end.

(** [bool] is a subclass of [int]. *)
Definition as_int (j : json) : option Z :=
  match j with
  | JInt z => Some z
  | JBool b => Some (if b then 1 else 0)
  | _ => None
  end.

(** [for x in j]: a list yields its elements, a dict its keys, a string its
    characters; anything else is not iterable. *)
Definition iterate (j : json) : option (list json) :=
  match j with
  | JList l => Some l
  | JDict d => Some (map (λ kv, JStr kv.1) d)
  | JStr s => Some (map (λ c, JStr (String c EmptyString)) (list_ascii_of_string s))
  | _ => None
  end.

Definition as_str (j : json) : option string :=
  match j with JStr s => Some s | _ => None end.

(** The argument vector [subprocess.Popen(command, shell=True)] builds: a
    string is the command line, any other iterable must consist of strings. *)
Definition popen_args (command : json) : option (list string) :=
  match command with
  | JStr s => Some [s]
  | _ => l ← iterate command; mapM as_str l
  end.

(** [collections.defaultdict(list)] with [d[k].append(x)]: a missing key is
    created, at the end, on first access. *)
Fixpoint defaultdict_append (k : string) (x : Z) (d : list (string * list Z))
  : list (string * list Z) :=
  match d with
  | [] => [(k, [x])]
  | (k', l) :: d' =>
      if decide (k' = k) then (k', l ++ [x]) :: d'
      else (k', l) :: defaultdict_append k x d'
  end.

Definition json_of_pid_dict (d : list (string * list Z)) : json :=
  JDict (map (λ kl, (kl.1, JList (map JInt kl.2))) d).

(** ** The Redis store *)

(** A stored byte string, seen through [json.loads]: either the text of the
    document [j] ([json.dumps j]), or text that does not parse. *)
Inductive payload : Type :=
| Doc (j : json)
| Malformed (raw : string).

(** A field of the settings hash, seen through [int(...)]: either text that
    reads as the integer [z], or text that does not. *)
Inductive setting_value : Type :=
| Num (z : Z)
| NotNum (raw : string).

Definition json_dumps (j : json) : payload := Doc j.

Definition json_loads (v : option payload) : exn + json :=
  match v with
  | None => inl TypeError
  | Some (Malformed _) => inl JSONDecodeError
  | Some (Doc j) => inr j
  end.

Definition py_int (v : option setting_value) : exn + Z :=
  match v with
  | None => inl TypeError
  | Some (NotNum _) => inl ValueError
  | Some (Num z) => inr z
  end.

(** The five keys of [ProcessRedisName].  The tracker iterates over the
    running-job hash, so that hash is a list of fields, in the order
    [HGETALL] returns them: the order of insertion, for a small hash.  The
    other two hashes are only read by field. *)
Record Redis : Type := mkRedis {
  PENDING_JOB_TICKETS : list string;
  KILLED_JOB_TICKETS : list string;
  JOB_DETAILS : gmap string payload;
  RUNNING_JOB : list (string * payload);
  SETTING : gmap string setting_value;
}.

(** [LREM key 0 value]: every occurrence goes. *)
Definition lrem (value : string) (l : list string) : list string :=
  filter (λ x, x ≠ value) l.

(** [HSET]: an existing field is overwritten in place, a new one is added. *)
Fixpoint hset {V : Type} (k : string) (v : V) (h : list (string * V)) : list (string * V) :=
  match h with
  | [] => [(k, v)]
  | (k', v') :: h' =>
      if decide (k' = k) then (k, v) :: h' else (k', v') :: hset k v h'
  end.

Definition hdel {V : Type} (k : string) (h : list (string * V)) : list (string * V) :=
  filter (λ kv, kv.1 ≠ k) h.

Definition hexists {V : Type} (k : string) (h : list (string * V)) : bool :=
  bool_decide (is_Some (dict_get k h)).

Definition hlen {V : Type} (h : list (string * V)) : Z := Z.of_nat (length h).

Definition hkeys {V : Type} (h : list (string * V)) : list string := h.*1.

(** What redis-py accepts as a hash field name: text, or a number written in
    decimal; [bool], [None] and containers are refused. *)
Definition redis_field (j : json) : exn + string :=
  match j with
  | JStr s => inr s
  | JInt z => inr (pretty z)
  | _ => inl DataError
  end.

(** ** Effects *)

Inductive event : Type :=
| EMakedirs (path : string)
| EOpen (path : string)
| EPopen (args : list string) (log : string) (pid : Z)
| EGetChildPid (pid child : Z)
| EKillpg (pgid : Z)
| ECloseByPid (pid : json) (recursive : bool)
| EHSetRunning (name : string) (v : payload)
| EHDelRunning (name : string)
| ELRemPending (name : string)
| ELRemKilled (name : string)
| EHSetSetting (field : string) (v : setting_value).

(** The operating system as the agents see it.  [close_by_pid] and
    [get_child_pid] live in [maro.cli.process.utils.details] and
    [LocalPaths.MARO_PROCESS] in [maro.cli.utils.params]; they are taken as
    parameters, like the system calls.

    [os.makedirs], [open] and [subprocess.Popen] can fail: the answer is then
    the exception the call raises - an [OSError] when the system refuses
    (a name too long, a directory in the way or missing, no permission, no
    room, no process left), a [ValueError] for a path or a command with a
    NUL character in it - and the system is as it was. *)
Class OS (W : Type) : Type := {
  pid_exists : W → Z → bool;
  getpgid : W → Z → option Z;
  killpg : Z → W → option W;
  job_local_path : json → string;
  log_file_name : string → string → Z → string;
  path_exists : W → string → bool;
  makedirs : string → W → exn + W;
  open_w : string → W → exn + W;
  popen : list string → string → W → exn + Z * W;
  get_child_pid : Z → W → Z * W;
  close_by_pid : json → bool → W → W;
}.

Record State (W : Type) : Type := mkState {
  redis : Redis;
  world : W;
  trace : list event;
  (** [JobTrackingAgent._shutdown_count] *)
  _shutdown_count : Z;
}.
Arguments mkState {W}.
Arguments redis {W}.
Arguments world {W}.
Arguments trace {W}.
Arguments _shutdown_count {W}.

Inductive result (A : Type) : Type :=
| Ok (a : A)
| Raise (e : exn).
Arguments Ok {A}.
Arguments Raise {A}.

(** A computation runs on the state and either returns or raises; the state
    reached when it raises is kept. *)
Definition M (W A : Type) : Type := State W → result A * State W.

Definition ret {W A} (a : A) : M W A := λ s, (Ok a, s).

Definition raise {W A} (e : exn) : M W A := λ s, (Raise e, s).

Definition bind {W A B} (m : M W A) (k : A → M W B) : M W B :=
  λ s, match m s with
       | (Ok a, s') => k a s'
       | (Raise e, s') => (Raise e, s')
       end.

#[global] Instance M_ret {W} : MRet (M W) := λ A, ret.
#[global] Instance M_bind {W} : MBind (M W) := λ A B k m, bind m k.

Definition lift {W A} (r : exn + A) : M W A :=
  match r with inl e => raise e | inr a => ret a end.

Definition lift_opt {W A} (e : exn) (r : option A) : M W A :=
  match r with None => raise e | Some a => ret a end.

Definition gets {W A} (f : State W → A) : M W A := λ s, (Ok (f s), s).

Definition modify {W} (f : State W → State W) : M W unit := λ s, (Ok tt, f s).

(** [for x in l: body x] *)
Fixpoint for_each {W A} (l : list A) (body : A → M W unit) : M W unit :=
  match l with
  | [] => ret tt
  | x :: l' => body x ;; for_each l' body
  end.

(** A loop that updates a local variable. *)
Fixpoint fold_m {W A B} (l : list A) (body : A → B → M W B) (acc : B) : M W B :=
  match l with
  | [] => ret acc
  | x :: l' => acc' ← body x acc; fold_m l' body acc'
  end.

Definition set_redis {W} (r : Redis) (s : State W) : State W :=
  mkState r (world s) (trace s) (_shutdown_count s).

Definition set_world {W} (w : W) (s : State W) : State W :=
  mkState (redis s) w (trace s) (_shutdown_count s).

Definition set_shutdown_count {W} (c : Z) (s : State W) : State W :=
  mkState (redis s) (world s) (trace s) c.

Definition emit {W} (e : event) : M W unit :=
  modify (λ s, mkState (redis s) (world s) (trace s ++ [e]) (_shutdown_count s)).

(** What an event does to the store. *)
Definition apply_event (e : event) (r : Redis) : Redis :=
  match e with
  | EHSetRunning name v =>
      mkRedis (PENDING_JOB_TICKETS r) (KILLED_JOB_TICKETS r) (JOB_DETAILS r)
              (hset name v (RUNNING_JOB r)) (SETTING r)
  | EHDelRunning name =>
      mkRedis (PENDING_JOB_TICKETS r) (KILLED_JOB_TICKETS r) (JOB_DETAILS r)
              (hdel name (RUNNING_JOB r)) (SETTING r)
  | ELRemPending name =>
      mkRedis (lrem name (PENDING_JOB_TICKETS r)) (KILLED_JOB_TICKETS r) (JOB_DETAILS r)
              (RUNNING_JOB r) (SETTING r)
  | ELRemKilled name =>
      mkRedis (PENDING_JOB_TICKETS r) (lrem name (KILLED_JOB_TICKETS r)) (JOB_DETAILS r)
              (RUNNING_JOB r) (SETTING r)
  | EHSetSetting field v =>
      mkRedis (PENDING_JOB_TICKETS r) (KILLED_JOB_TICKETS r) (JOB_DETAILS r)
              (RUNNING_JOB r) (<[field := v]> (SETTING r))
  | _ => r
  end.

(** The store after a sequence of events. *)
Definition replay (evs : list event) (r : Redis) : Redis :=
  fold_left (λ r e, apply_event e r) evs r.

(** A write to the store: logged, then done. *)
Definition redis_write {W} (e : event) : M W unit :=
  emit e ;; modify (λ s, set_redis (apply_event e (redis s)) s).

(** ** The [redis_connection] calls the agents make *)

Module Connection.
Section calls.
Context {W : Type}.

Definition lrange_pending : M W (list string) :=
  gets (λ s, PENDING_JOB_TICKETS (redis s)).
Definition lrange_killed : M W (list string) :=
  gets (λ s, KILLED_JOB_TICKETS (redis s)).
Definition llen_pending : M W Z :=
  gets (λ s, Z.of_nat (length (PENDING_JOB_TICKETS (redis s)))).
Definition hget_job_details (name : string) : M W (option payload) :=
  gets (λ s, JOB_DETAILS (redis s) !! name).
Definition hget_setting (field : string) : M W (option setting_value) :=
  gets (λ s, SETTING (redis s) !! field).
Definition hlen_running : M W Z :=
  gets (λ s, hlen (RUNNING_JOB (redis s))).
Definition hgetall_running : M W (list (string * payload)) :=
  gets (λ s, RUNNING_JOB (redis s)).
Definition hexists_running (name : string) : M W bool :=
  gets (λ s, hexists name (RUNNING_JOB (redis s))).
Definition hget_running (name : string) : M W (option payload) :=
  gets (λ s, dict_get name (RUNNING_JOB (redis s))).

Definition hset_running (name : json) (v : payload) : M W unit :=
  field ← lift (redis_field name); redis_write (EHSetRunning field v).
Definition hdel_running (name : string) : M W unit :=
  redis_write (EHDelRunning name).
Definition lrem_pending (name : string) : M W unit :=
  redis_write (ELRemPending name).
Definition lrem_killed (name : string) : M W unit :=
  redis_write (ELRemKilled name).
Definition hset_setting (field : string) (v : setting_value) : M W unit :=
  redis_write (EHSetSetting field v).
End calls.
End Connection.

(** ** Python operations that can raise *)

Section python.
Context {W : Type}.

(** [j[k]] with a string [k]: only a dict takes it. *)
Definition subscript (j : json) (k : string) : M W json :=
  match j with
  | JDict d => lift_opt (KeyError k) (dict_get k d)
  | _ => raise TypeError
  end.

(** [j.items()] *)
Definition items (j : json) : M W (list (string * json)) :=
  match j with
  | JDict d => ret d
  | _ => raise AttributeError
  end.

(** [range(j)]: empty when [j] is not positive. *)
Definition range (j : json) : M W (list Z) :=
  n ← lift_opt TypeError (as_int j);
  ret (map Z.of_nat (seq 0 (Z.to_nat n))).

Definition iter (j : json) : M W (list json) := lift_opt TypeError (iterate j).
End python.

(** ** System calls *)

Module Sys.
Section calls.
Context `{OS W}.

Definition os_path_exists (path : string) : M W bool :=
  gets (λ s, path_exists (world s) path).

(** [os.makedirs(path)] *)
Definition os_makedirs (path : string) : M W unit :=
  answer ← gets (λ s, makedirs path (world s));
  w ← lift answer;
  emit (EMakedirs path) ;;
  modify (set_world w).

(** [open(path, "w")] *)
Definition open_log (path : string) : M W unit :=
  answer ← gets (λ s, open_w path (world s));
  w ← lift answer;
  emit (EOpen path) ;;
  modify (set_world w).

(** [subprocess.Popen(command, shell=True, stdout=log_file).pid] *)
Definition Popen (command : json) (log : string) : M W Z :=
  args ← lift_opt TypeError (popen_args command);
  answer ← gets (λ s, popen args log (world s));
  started ← lift answer;
  modify (set_world started.2) ;;
  emit (EPopen args log started.1) ;;
  ret started.1.

Definition call_get_child_pid (pid : Z) : M W Z :=
  child ← (λ s, let '(c, w) := get_child_pid pid (world s) in (Ok c, set_world w s));
  emit (EGetChildPid pid child) ;;
  ret child.

(** [psutil.pid_exists(pid)] compares [pid] with 0 first. *)
Definition psutil_pid_exists (pid : json) : M W bool :=
  p ← lift_opt TypeError (as_int pid);
  gets (λ s, pid_exists (world s) p).

Definition os_getpgid (pid : json) : M W Z :=
  p ← lift_opt TypeError (as_int pid);
  g ← gets (λ s, getpgid (world s) p);
  lift_opt ProcessLookupError g.

(** [os.killpg(pgid, signal.SIGTERM)] *)
Definition os_killpg (pgid : Z) : M W unit :=
  w ← gets (λ s, killpg pgid (world s));
  w' ← lift_opt ProcessLookupError w;
  emit (EKillpg pgid) ;;
  modify (set_world w').

Definition call_close_by_pid (pid : json) (recursive : bool) : M W unit :=
  emit (ECloseByPid pid recursive) ;;
  modify (λ s, set_world (close_by_pid pid recursive (world s)) s).
End calls.
End Sys.

(** ** The agents' polling loops *)

(** What the other processes (submitters, the other agents, the jobs
    themselves) do to the store and to the operating system while an agent
    sleeps. *)
Definition external (W : Type) : Type := Redis → W → Redis * W.

(** [time.sleep(self.check_interval)] *)
Definition sleep {W} (e : external W) : M W unit :=
  modify (λ s, let '(r, w) := e (redis s) (world s) in
               mkState r w (trace s) (_shutdown_count s)).

Module PendingJobAgent.
Section agent.
Context `{OS W}.
Import Connection Sys.

(** The body of [for num in range(number)]. *)
Definition launch (job_details : json) (component_type : string) (command : json)
    (num : Z) (pid_dict : list (string * list Z)) : M W (list (string * list Z)) :=
  name ← subscript job_details "name";
  let path := job_local_path name in
  present ← os_path_exists path;
  (if present : bool then ret tt else os_makedirs path) ;;
  let log := log_file_name path component_type num in
  open_log log ;;
  proc_pid ← Popen command log;
  command_pid ← call_get_child_pid proc_pid;
  ret (defaultdict_append "command_pids" command_pid
         (defaultdict_append "shell_pids" proc_pid pid_dict)).

(** The body of [for component_type, command_info in ...items()]. *)
Definition launch_component (job_details : json) (component : string * json)
    (pid_dict : list (string * list Z)) : M W (list (string * list Z)) :=
  let '(component_type, command_info) := component in
  number ← subscript command_info "num";
  command ← subscript command_info "command";
  nums ← range number;
  fold_m nums (launch job_details component_type command) pid_dict.

Definition _start_job (job_details : json) : M W unit :=
  components ← subscript job_details "components";
  comps ← items components;
  pid_dict ← fold_m comps (launch_component job_details) [];
  name ← subscript job_details "name";
  hset_running name (json_dumps (json_of_pid_dict pid_dict)).

(** The body of [for pending_job in pending_jobs]. *)
Definition examine (pending_job : string) : M W unit :=
  raw ← hget_job_details pending_job;
  job_detail ← lift (json_loads raw);
  running_jobs_length ← hlen_running;
  parallel_level ← hget_setting "parallel_level";
  cap ← lift (py_int parallel_level);
  if bool_decide (cap > running_jobs_length) then
    _start_job job_detail ;;
    lrem_pending pending_job
  else ret tt.

Definition _check_pending_ticket : M W unit :=
  pending_jobs ← lrange_pending;
  for_each pending_jobs examine.

(** [while True], unrolled once per entry of the schedule. *)
Definition run (schedule : list (external W)) : M W unit :=
  for_each schedule (λ e, _check_pending_ticket ;; sleep e).
End agent.
End PendingJobAgent.

Module JobTrackingAgent.
Section agent.
Context `{OS W}.
Import Connection Sys.

(** The body of [for running_job, pid_dict in running_jobs.items()]. *)
Definition check_job (job : string * payload) : M W unit :=
  let '(running_job, stored) := job in
  pid_dict ← lift (json_loads (Some stored));
  command_pids ← subscript pid_dict "command_pids";
  pids ← iter command_pids;
  still_alive ← fold_m pids (λ pid still_alive,
                    e ← psutil_pid_exists pid;
                    ret (if e : bool then true else still_alive)) false;
  if still_alive : bool then ret tt
  else
    hdel_running running_job ;;
    shell_pids ← subscript pid_dict "shell_pids";
    call_close_by_pid shell_pids false.

Definition _check_job_status : M W unit :=
  running_jobs ← hgetall_running;
  for_each running_jobs check_job.

Definition _close_process_cli : M W unit :=
  running ← hlen_running;
  pending ← llen_pending;
  (if bool_decide (running = 0) && bool_decide (pending = 0)
   then modify (λ s, set_shutdown_count (_shutdown_count s + 1) s)
   else modify (set_shutdown_count 0)) ;;
  count ← gets _shutdown_count;
  if bool_decide (count >= 5) then
    raw ← hget_setting "agent_pid";
    agent_pid ← lift (py_int raw);
    call_close_by_pid (JInt agent_pid) true ;;
    hset_setting "agent_status" (Num 0)
  else ret tt.

(** One turn of the [while True] of [run]. *)
Definition cycle (e : external W) : M W unit :=
  _check_job_status ;;
  sleep e ;;
  raw ← hget_setting "keep_agent_alive";
  keep_alive ← lift (py_int raw);
  if bool_decide (keep_alive = 0) then _close_process_cli else ret tt.

Definition run (schedule : list (external W)) : M W unit :=
  for_each schedule cycle.
End agent.
End JobTrackingAgent.

Module KilledJobAgent.
Section agent.
Context `{OS W}.
Import Connection Sys.

Definition _stop_job (job_name : string) (pid_list : json) : M W unit :=
  pids ← iter pid_list;
  for_each pids (λ pid, pgid ← os_getpgid pid; os_killpg pgid) ;;
  hdel_running job_name.

(** The body of [for job_name in killed_job_names]. *)
Definition handle (job_name : string) : M W unit :=
  running ← hexists_running job_name;
  (if running : bool then
     raw ← hget_running job_name;
     pid_list ← lift (json_loads raw);
     _stop_job job_name pid_list
   else lrem_pending job_name) ;;
  lrem_killed job_name.

Definition _check_kill_ticket : M W unit :=
  killed_job_names ← lrange_killed;
  for_each killed_job_names handle.

Definition run (schedule : list (external W)) : M W unit :=
  for_each schedule (λ e, _check_kill_ticket ;; sleep e).
End agent.
End KilledJobAgent.

Module MasterAgent.
Section agent.
Context {W : Type}.

(** Once connected, the master publishes its own pid; [pid] is what
    [os.getpid()] returns.  ([start], which spawns the three agents as
    processes of their own, has no sequential counterpart.) *)
Definition __init__ (pid : Z) : M W unit :=
  Connection.hset_setting "agent_pid" (Num pid).
End agent.
End MasterAgent.

(** ** A small operating system to run the agents on

    Process ids are handed out in pairs, the shell and then its child; every
    process leads its own group. *)
Module Host.
Record t : Type := mk {
  next_pid : Z;
  live : list Z;
  dirs : list string;
}.

Definition name_text (name : json) : string :=
  match name with
  | JStr s => s
  | JInt z => pretty z
  | _ => "None"
  end.

Definition kill_all (pid : json) (l : list Z) : list Z :=
  match pid with
  | JInt p => filter (λ x, x ≠ p) l
  | JList ps => filter (λ x, x ∉ omap as_int ps) l
  | _ => l
  end.

(** The length of the longest component of a path; [run] is the length
    of the component being read. *)
Fixpoint longest_from (run : nat) (path : string) : nat :=
  match path with
  | EmptyString => run
  | String c rest =>
      if decide (c = "/"%char) then run `max` longest_from 0 rest
      else longest_from (S run) rest
  end.

Definition has_nul (text : string) : bool :=
  bool_decide ("000"%char ∈ list_ascii_of_string text).

(** What the file system says to a path it is asked to create or open:
    [ValueError] for a NUL character, [OSError] for a component of more
    than 255 characters. *)
Definition path_refused (path : string) : option exn :=
  if has_nul path then Some ValueError
  else if decide (255 < longest_from 0 path)%nat then Some OSError
  else None.
End Host.

Module HostOS.
Import Host.

#[global] Instance host_os : OS Host.t := {|
  pid_exists w p := bool_decide (p ∈ live w);
  getpgid w p := if decide (p ∈ live w) then Some p else None;
  killpg g w :=
    if decide (g ∈ live w)
    then Some (mk (next_pid w) (filter (λ x, x ≠ g) (live w)) (dirs w))
    else None;
  job_local_path name := "~/.maro/clusters/process/" +:+ name_text name;
  log_file_name path component_type num :=
    path +:+ "/" +:+ component_type +:+ "_" +:+ pretty num +:+ ".log";
  path_exists w path := bool_decide (path ∈ dirs w);
  makedirs path w :=
    match path_refused path with
    | Some x => inl x
    | None => inr (mk (next_pid w) (live w) (dirs w ++ [path]))
    end;
  open_w path w :=
    match path_refused path with
    | Some x => inl x
    | None => inr w
    end;
  popen args log w :=
    if existsb has_nul args then inl ValueError
    else inr (next_pid w,
              mk (next_pid w + 2) (live w ++ [next_pid w; next_pid w + 1]) (dirs w));
  get_child_pid p w := (p + 1, w);
  close_by_pid pid recursive w := mk (next_pid w) (kill_all pid (live w)) (dirs w);
|}.
End HostOS.

(** ** Stores and states for the examples *)

Definition component_json (c : string * (Z * string)) : string * json :=
  (c.1, JDict [("num", JInt c.2.1); ("command", JStr c.2.2)]).

(** A JobSpec, as a submitter writes it into the details hash. *)
Definition job_spec (name : string) (components : list (string * (Z * string))) : json :=
  JDict [("name", JStr name); ("components", JDict (component_json <$> components))].

Definition empty_redis : Redis := mkRedis [] [] ∅ [] ∅.

Definition boot (r : Redis) : State Host.t :=
  mkState r (Host.mk 100 [] []) [] 0.

Definition job1 : json := job_spec "job1" [("driver", (1, "sleep 1")); ("worker", (2, "sleep 1"))].

Definition store1 : Redis :=
  mkRedis ["job1"] [] {[ "job1" := Doc job1 ]} []
          {[ "parallel_level" := Num 1 ]}.


(** An idle store and a busy one, with the settings the tracker reads. *)
Definition tracker_settings (keep_agent_alive : Z) : gmap string setting_value :=
  {[ "parallel_level" := Num 1; "keep_agent_alive" := Num keep_agent_alive;
     "agent_pid" := Num 4242; "agent_status" := Num 1 ]}.

Definition quiet_redis : Redis := mkRedis [] [] ∅ [] (tracker_settings 0).

Definition busy_redis : Redis :=
  mkRedis ["job1"] [] {[ "job1" := Doc job1 ]} [] (tracker_settings 0).

Definition kept_alive_redis : Redis := mkRedis [] [] ∅ [] (tracker_settings 1).

(** Other processes leaving a fixed store behind. *)
Definition leave (r : Redis) : external Host.t := λ _ w, (r, w).

(** Two jobs queued under a cap of one. *)
Definition job2 : json := job_spec "job2" [("worker", (1, "sleep 2"))].

Definition store2 : Redis :=
  mkRedis ["job1"; "job2"] [] {[ "job1" := Doc job1; "job2" := Doc job2 ]} []
          {[ "parallel_level" := Num 1 ]}.

Definition job1_of_two_running : State Host.t :=
  (PendingJobAgent._check_pending_ticket (boot store2)).2.

(** A kill ticket for a job that is only queued. *)
Definition store_kill_pending : Redis :=
  mkRedis ["job1"] ["job1"] {[ "job1" := Doc job1 ]} []
          {[ "parallel_level" := Num 1 ]}.

(** Two kill tickets, the first for a record that does not parse. *)
Definition store_kill_bad : Redis :=
  mkRedis ["job1"] ["bad"; "job1"] {[ "job1" := Doc job1 ]} [("bad", Malformed "{")]
          {[ "parallel_level" := Num 1 ]}.

(** The store once the scheduler has admitted [job1], and the same with a
    kill ticket for it. *)
Definition job1_running : State Host.t :=
  (PendingJobAgent._check_pending_ticket (boot store1)).2.

Definition with_kill_ticket (job : string) (s : State Host.t) : State Host.t :=
  set_redis (mkRedis (PENDING_JOB_TICKETS (redis s)) [job] (JOB_DETAILS (redis s))
                     (RUNNING_JOB (redis s)) (SETTING (redis s))) s.

(** A job without instances. *)
Definition job0 : json := job_spec "job0" [].

Definition store0 : Redis :=
  mkRedis ["job0"] [] {[ "job0" := Doc job0 ]} []
          {[ "parallel_level" := Num 1 ]}.

Definition job0_running : State Host.t :=
  (PendingJobAgent._check_pending_ticket (boot store0)).2.

(** Two tickets, the first for details that do not parse. *)
Definition store_bad : Redis :=
  mkRedis ["bad"; "job1"] [] {[ "bad" := Malformed "{"; "job1" := Doc job1 ]} []
          {[ "parallel_level" := Num 2 ]}.

(** A specification whose second component has no command, and one
    without a name. *)
Definition job_half : json :=
  JDict [("name", JStr "half");
         ("components",
          JDict [("driver", JDict [("num", JInt 1); ("command", JStr "sleep 1")]);
                 ("worker", JDict [("num", JInt 2)])])].

Definition store_half : Redis :=
  mkRedis ["half"] [] {[ "half" := Doc job_half ]} []
          {[ "parallel_level" := Num 1 ]}.

Definition job_nameless : json :=
  JDict [("components",
          JDict [("driver", JDict [("num", JInt 1); ("command", JStr "sleep 1")])])].

(** Three jobs queued under a cap of two. *)
Definition job3 : json := job_spec "job3" [].

Definition jobs3 : list (string * list (string * (Z * string))) :=
  [("job1", [("driver", (1, "sleep 1")); ("worker", (2, "sleep 1"))]);
   ("job2", [("worker", (1, "sleep 2"))]);
   ("job3", [])].

Definition store3 : Redis :=
  mkRedis ["job1"; "job2"; "job3"] []
          {[ "job1" := Doc job1; "job2" := Doc job2; "job3" := Doc job3 ]} []
          {[ "parallel_level" := Num 2 ]}.

(** [job1] running, queued once more, with room under the cap. *)
Definition job1_again : State Host.t :=
  set_redis (mkRedis ["job1"] [] (JOB_DETAILS (redis job1_running))
                     (RUNNING_JOB (redis job1_running))
                     {[ "parallel_level" := Num 2 ]}) job1_running.

(** [job1] running, its shells still there and its commands gone. *)
Definition job1_finished : State Host.t :=
  set_world (Host.mk 106 [100; 102; 104] []) job1_running.

Definition job1_pids : list (string * (list Z * list Z)) :=
  [("job1", ([100; 102; 104], [101; 103; 105]))].

(** Nobody else does anything. *)
Definition left_alone : external Host.t := λ r w, (r, w).

(** A job whose name is longer than a file name can be, queued before
    [job1]. *)
Definition long_name : string := string_of_list_ascii (repeat "a"%char 256).

Definition job_long : json := job_spec long_name [("worker", (1, "sleep 1"))].

Definition store_long : Redis :=
  mkRedis [long_name; "job1"] [] {[ long_name := Doc job_long; "job1" := Doc job1 ]} []
          {[ "parallel_level" := Num 2 ]}.

(** [job1] running and [job2] queued, with a kill ticket for each. *)
Definition both_killed : State Host.t :=
  set_redis (mkRedis (PENDING_JOB_TICKETS (redis job1_of_two_running)) ["job1"; "job2"]
                     (JOB_DETAILS (redis job1_of_two_running))
                     (RUNNING_JOB (redis job1_of_two_running))
                     (SETTING (redis job1_of_two_running))) job1_of_two_running.


(** Where the scheduler leaves the examples. *)
Definition job1_started : State Host.t :=
  (PendingJobAgent._start_job job1 (boot store1)).2.

Definition jobs3_examined : State Host.t :=
  (PendingJobAgent._check_pending_ticket (boot store3)).2.

Definition job1_started_again : State Host.t :=
  (PendingJobAgent.examine "job1" job1_again).2.
(** * Notions used to state the properties *)

Section notions.
Context {W : Type}.

(** Every run of [m] takes a state to one related to it by [R], whether it
    returns or raises. *)
Definition stable {A} (R : relation (State W)) (m : M W A) : Prop :=
  ∀ s r s', m s = (r, s') → R s s'.

(** The counter is private to the tracker: nothing but
    [_close_process_cli] writes it. *)
Definition same_count : relation (State W) :=
  λ s s', _shutdown_count s' = _shutdown_count s.

(** Nothing queued and nothing running. *)
Definition idle (r : Redis) : Prop :=
  RUNNING_JOB r = [] ∧ PENDING_JOB_TICKETS r = [].

(** The store an agent finds when it wakes up satisfies [P], whatever it
    was when the agent fell asleep. *)
Definition leaves (P : Redis → Prop) (e : external W) : Prop :=
  ∀ r w, P (e r w).1.

Definition setting_is (field : string) (z : Z) (r : Redis) : Prop :=
  SETTING r !! field = Some (Num z).

(** What the tracker finds on waking up in an idle period: nothing to do,
    no keep-alive override, and the master's pid where the master put it. *)
Definition quiet_store (agent_pid : Z) (r : Redis) : Prop :=
  idle r ∧ setting_is "keep_agent_alive" 0 r ∧ setting_is "agent_pid" agent_pid r.

Definition busy_store (r : Redis) : Prop :=
  ¬ idle r ∧ setting_is "keep_agent_alive" 0 r.

(** The keep-alive override is set: the field reads as a non-zero number. *)
Definition kept_alive (r : Redis) : Prop :=
  ∃ k, k ≠ 0 ∧ setting_is "keep_agent_alive" k r.

(** A RunningRecord with both lists, as [_start_job] writes it for a job
    with at least one instance. *)
Definition running_record (shell_pids command_pids : list Z) : payload :=
  json_dumps (json_of_pid_dict [("shell_pids", shell_pids);
                                ("command_pids", command_pids)]).

(** The state once the tracker has deleted the record of a finished job
    and closed its shells. *)
Definition reaped `{OS W} (running_job : string) (shell_pids : list Z)
    (s : State W) : State W :=
  mkState (apply_event (EHDelRunning running_job) (redis s))
          (close_by_pid (JList (JInt <$> shell_pids)) false (world s))
          (trace s ++ [EHDelRunning running_job;
                       ECloseByPid (JList (JInt <$> shell_pids)) false])
          (_shutdown_count s).

(** The state in which an agent wakes up. *)
Definition woken (e : external W) (s : State W) : State W :=
  mkState (e (redis s) (world s)).1 (e (redis s) (world s)).2 (trace s) (_shutdown_count s).

(** The store, the processes and the trace once the tracker has closed the
    master agent. *)
Definition shut_down `{OS W} (agent_pid : Z) (s : State W) : State W :=
  mkState (apply_event (EHSetSetting "agent_status" (Num 0)) (redis s))
          (close_by_pid (JInt agent_pid) true (world s))
          (trace s ++ [ECloseByPid (JInt agent_pid) true;
                       EHSetSetting "agent_status" (Num 0)])
          (_shutdown_count s).

(** Events that write to the store, as opposed to actions on the operating
    system. *)
Definition is_write (e : event) : bool :=
  match e with
  | EHSetRunning _ _ | EHDelRunning _ | ELRemPending _ | ELRemKilled _
  | EHSetSetting _ _ => true
  | _ => false
  end.

Definition os_only (evs : list event) : Prop := Forall (λ e, is_write e = false) evs.

(** A stretch of execution that only acts on the operating system. *)
Definition launches : relation (State W) :=
  λ s s', redis s' = redis s
          ∧ _shutdown_count s' = _shutdown_count s
          ∧ ∃ evs, trace s' = trace s ++ evs ∧ os_only evs.

(** [json.loads(...)[k]] read off a document, when it is there. *)
Definition json_get (k : string) (j : json) : option json :=
  match j with JDict d => dict_get k d | _ => None end.

(** How [_start_job] can end: it raises after some launches, the store
    untouched; or it returns, and the last thing it did, after the
    launches, was the one write of the record under the job's name. *)
Definition start_job_ends (job_details : json) (s : State W)
    (r : result unit) (s' : State W) : Prop :=
  _shutdown_count s' = _shutdown_count s
  ∧ ∃ evs, os_only evs
    ∧ ((∃ x, r = Raise x ∧ trace s' = trace s ++ evs ∧ redis s' = redis s)
       ∨ (∃ name field v,
            r = Ok tt
            ∧ json_get "name" job_details = Some name
            ∧ redis_field name = inr field
            ∧ trace s' = trace s ++ evs ++ [EHSetRunning field v]
            ∧ redis s' = apply_event (EHSetRunning field v) (redis s))).

(** The cap is where it was and, if the running-job hash was within it, it
    still is. *)
Definition within_cap (cap : Z) : relation (State W) :=
  λ s s', setting_is "parallel_level" cap (redis s) →
          hlen (RUNNING_JOB (redis s)) ≤ cap →
          setting_is "parallel_level" cap (redis s')
          ∧ hlen (RUNNING_JOB (redis s')) ≤ cap.

(** The stores a trace goes through, one after each event. *)
Fixpoint visited (evs : list event) (r : Redis) : list Redis :=
  match evs with
  | [] => []
  | e :: evs' => apply_event e r :: visited evs' (apply_event e r)
  end.

(** The job is known to the store: queued, or running. *)
Definition present (job : string) (r : Redis) : Prop :=
  job ∈ PENDING_JOB_TICKETS r ∨ job ∈ hkeys (RUNNING_JOB r).

(** The details hash is keyed by job name: what is stored under [job] is
    the specification of a job called [job]. *)
Definition keyed_by_name (job : string) (r : Redis) : Prop :=
  ∀ j name, JOB_DETAILS r !! job = Some (Doc j) →
            json_get "name" j = Some name → name = JStr job.

(** In a trace, the pending ticket of [job] is removed only after a record
    was written for [job]. *)
Definition written_before_removed (job : string) (evs : list event) : Prop :=
  ∀ before after, evs = before ++ ELRemPending job :: after →
                  ∃ v, EHSetRunning job v ∈ before.

(** From a store in which [job] is known, the execution goes only through
    stores in which it is, writing before it removes. *)
Definition never_lost (job : string) : relation (State W) :=
  λ s s', keyed_by_name job (redis s) → present job (redis s) →
          ∃ evs, trace s' = trace s ++ evs
                 ∧ redis s' = replay evs (redis s)
                 ∧ Forall (λ r, keyed_by_name job r ∧ present job r)
                          (visited evs (redis s))
                 ∧ written_before_removed job evs.

(** The state after [lrem(PENDING_JOB_TICKETS, 0, pending_job)]. *)
Definition ticket_removed (pending_job : string) (s : State W) : State W :=
  mkState (apply_event (ELRemPending pending_job) (redis s)) (world s)
          (trace s ++ [ELRemPending pending_job]) (_shutdown_count s).

(** The state after the two [lrem] of a kill ticket for a job that is not
    running. *)
Definition ticket_dropped (job_name : string) (s : State W) : State W :=
  mkState (apply_event (ELRemKilled job_name)
             (apply_event (ELRemPending job_name) (redis s)))
          (world s)
          (trace s ++ [ELRemPending job_name; ELRemKilled job_name])
          (_shutdown_count s).

(** ** What a trace says about the processes started *)

(** The [Popen] calls of a trace: arguments, log file and the pid of the
    shell. *)
Definition spawned (evs : list event) : list (list string * string * Z) :=
  omap (λ e, match e with EPopen args log pid => Some (args, log, pid) | _ => None end) evs.

(** The [get_child_pid] calls of a trace: the shell asked about, and the
    answer. *)
Definition resolved (evs : list event) : list (Z * Z) :=
  omap (λ e, match e with EGetChildPid pid child => Some (pid, child) | _ => None end) evs.

Definition shell_pids_of (evs : list event) : list Z := (spawned evs).*2.

Definition command_pids_of (evs : list event) : list Z := (resolved evs).*2.

(** The [pid_dict] built from the pids of the instances started so far: a
    [defaultdict] has no key before the first [append]. *)
Definition pid_record (shell_pids command_pids : list Z) : list (string * list Z) :=
  match shell_pids with
  | [] => []
  | _ => [("shell_pids", shell_pids); ("command_pids", command_pids)]
  end.

(** The record [_start_job] writes after the launches of [evs]. *)
Definition written_record (evs : list event) : payload :=
  json_dumps (json_of_pid_dict (pid_record (shell_pids_of evs) (command_pids_of evs))).

(** The document of a RunningRecord, written out: the two lists of pids
    under their keys, the shells first; for a job without instances the
    [defaultdict] was never touched and the document is [{}]. *)
Definition record_document (shell_pids command_pids : list Z) : json :=
  match shell_pids with
  | [] => JDict []
  | _ => JDict [("shell_pids", JList (JInt <$> shell_pids));
                ("command_pids", JList (JInt <$> command_pids))]
  end.

(** The jobs a trace writes a record for, in the order of the writes. *)
Definition recorded (evs : list event) : list string :=
  omap (λ e, match e with EHSetRunning name _ => Some name | _ => None end) evs.

(** The instances a specification asks for, in the order of the two
    loops: the command and the log file of each. *)
Definition instances `{OS W} (path : string)
    (components : list (string * (Z * string))) : list (list string * string) :=
  c ← components;
  (λ i, ([c.2.2], log_file_name path c.1 (Z.of_nat i))) <$> seq 0 (Z.to_nat c.2.1).

Definition total_instances (components : list (string * (Z * string))) : nat :=
  sum_list ((λ c, Z.to_nat c.2.1) <$> components).


(** Between [s] and [s'] the instances [insts] were started, and nothing
    else happened: the store is as it was, one child was resolved per
    shell, and [evs] is what the trace gained. *)
Definition launched (s s' : State W) (evs : list event)
    (insts : list (list string * string)) : Prop :=
  trace s' = trace s ++ evs
  ∧ redis s' = redis s
  ∧ os_only evs
  ∧ (spawned evs).*1 = insts
  ∧ (resolved evs).*1 = shell_pids_of evs.

(** ** The running hash as the tracker reads it *)

(** A job with a record of both lists: its name, its shell pids and its
    command pids. *)
Definition record_entry (job : string * (list Z * list Z)) : string * payload :=
  (job.1, running_record job.2.1 job.2.2).

(** Some command pid of the job exists. *)
Definition alive `{OS W} (w : W) (job : string * (list Z * list Z)) : bool :=
  existsb (pid_exists w) job.2.2.

(** What the tracker does to a finished job. *)
Definition reap_events (job : string * (list Z * list Z)) : list event :=
  [EHDelRunning job.1; ECloseByPid (JList (JInt <$> job.2.1)) false].

(** Closing the shells of one of the jobs does not change whether a
    command pid of any of them exists. *)
Definition closing_spares_commands `{OS W}
    (jobs : list (string * (list Z * list Z))) : Prop :=
  ∀ job job' p w,
    job ∈ jobs → job' ∈ jobs → p ∈ job'.2.2 →
    pid_exists (close_by_pid (JList (JInt <$> job.2.1)) false w) p = pid_exists w p.

(** The others leave a store that satisfies [P] in that condition. *)
Definition preserves (P : Redis → Prop) (e : external W) : Prop :=
  ∀ r w, P r → P (e r w).1.

(** ** What each agent leaves alone *)

(** What the scheduler does: it starts processes, writes records and takes
    tickets off the pending list. *)
Definition scheduler_event (e : event) : bool :=
  match e with
  | EMakedirs _ | EOpen _ | EPopen _ _ _ | EGetChildPid _ _
  | EHSetRunning _ _ | ELRemPending _ => true
  | _ => false
  end.

Definition scheduler_frame : relation (State W) :=
  λ s s', KILLED_JOB_TICKETS (redis s') = KILLED_JOB_TICKETS (redis s)
          ∧ JOB_DETAILS (redis s') = JOB_DETAILS (redis s)
          ∧ SETTING (redis s') = SETTING (redis s)
          ∧ _shutdown_count s' = _shutdown_count s
          ∧ PENDING_JOB_TICKETS (redis s') ⊆ PENDING_JOB_TICKETS (redis s)
          ∧ hkeys (RUNNING_JOB (redis s)) ⊆ hkeys (RUNNING_JOB (redis s'))
          ∧ ∃ evs, trace s' = trace s ++ evs
                   ∧ Forall (λ e, scheduler_event e = true) evs.

(** What the liveness pass does: it deletes records and closes pids, never
    recursively. *)
Definition tracker_event (e : event) : bool :=
  match e with
  | EHDelRunning _ | ECloseByPid _ false => true
  | _ => false
  end.

Definition tracker_frame : relation (State W) :=
  λ s s', PENDING_JOB_TICKETS (redis s') = PENDING_JOB_TICKETS (redis s)
          ∧ KILLED_JOB_TICKETS (redis s') = KILLED_JOB_TICKETS (redis s)
          ∧ JOB_DETAILS (redis s') = JOB_DETAILS (redis s)
          ∧ SETTING (redis s') = SETTING (redis s)
          ∧ _shutdown_count s' = _shutdown_count s
          ∧ RUNNING_JOB (redis s') ⊆ RUNNING_JOB (redis s)
          ∧ ∃ evs, trace s' = trace s ++ evs
                   ∧ Forall (λ e, tracker_event e = true) evs.

(** What the kill processor does: it signals process groups, deletes
    records and takes tickets off both lists. *)
Definition killer_event (e : event) : bool :=
  match e with
  | EKillpg _ | EHDelRunning _ | ELRemPending _ | ELRemKilled _ => true
  | _ => false
  end.

Definition killer_frame : relation (State W) :=
  λ s s', JOB_DETAILS (redis s') = JOB_DETAILS (redis s)
          ∧ SETTING (redis s') = SETTING (redis s)
          ∧ _shutdown_count s' = _shutdown_count s
          ∧ PENDING_JOB_TICKETS (redis s') ⊆ PENDING_JOB_TICKETS (redis s)
          ∧ KILLED_JOB_TICKETS (redis s') ⊆ KILLED_JOB_TICKETS (redis s)
          ∧ RUNNING_JOB (redis s') ⊆ RUNNING_JOB (redis s)
          ∧ ∃ evs, trace s' = trace s ++ evs
                   ∧ Forall (λ e, killer_event e = true) evs.

(** The scheduler has not written a record for [job]: the field of [job]
    in the running hash reads as before. *)
Definition spares (job : string) : relation (State W) :=
  λ s s', JOB_DETAILS (redis s') = JOB_DETAILS (redis s)
          ∧ PENDING_JOB_TICKETS (redis s') ⊆ PENDING_JOB_TICKETS (redis s)
          ∧ dict_get job (RUNNING_JOB (redis s')) = dict_get job (RUNNING_JOB (redis s))
          ∧ ∃ evs, trace s' = trace s ++ evs ∧ ∀ v, EHSetRunning job v ∉ evs.

(** The two ticket lists only lose entries, and no process is started. *)
Definition only_drops : relation (State W) :=
  λ s s', PENDING_JOB_TICKETS (redis s') ⊆ PENDING_JOB_TICKETS (redis s)
          ∧ KILLED_JOB_TICKETS (redis s') ⊆ KILLED_JOB_TICKETS (redis s)
          ∧ ∃ evs, trace s' = trace s ++ evs ∧ spawned evs = [].
End notions.


(** Failure isolation, as one would want it of the scheduler: a ticket whose
    details do not parse is passed over, and the cycle leaves the store as
    the other tickets alone would have. *)
Definition bad_ticket_skipped `{OS W} (s : State W)
    (before : list string) (bad : string) (after : list string) : Prop :=
  PENDING_JOB_TICKETS (redis s) = before ++ bad :: after →
  (∃ raw, JOB_DETAILS (redis s) !! bad = Some (Malformed raw)) →
  RUNNING_JOB (redis (PendingJobAgent._check_pending_ticket s).2)
  = RUNNING_JOB (redis (for_each (before ++ after) PendingJobAgent.examine s).2).


(** * Reasoning about computations *)

Section monad_facts.
Context {W : Type}.

Lemma bind_run {A B} (m : M W A) (k : A → M W B) s :
  (m ≫= k) s = match m s with
               | (Ok a, s') => k a s'
               | (Raise e, s') => (Raise e, s')
               end.
Proof. reflexivity. Qed.

Lemma bind_ok {A B} (m : M W A) (k : A → M W B) s a s' :
  m s = (Ok a, s') → (m ≫= k) s = k a s'.
Proof. intros E. rewrite bind_run, E. reflexivity. Qed.

Lemma bind_raise {A B} (m : M W A) (k : A → M W B) s e s' :
  m s = (Raise e, s') → (m ≫= k) s = (Raise e, s').
Proof. intros E. rewrite bind_run, E. reflexivity. Qed.

Lemma for_each_cons {A} (x : A) l (body : A → M W unit) s :
  for_each (x :: l) body s =
  match body x s with
  | (Ok _, s') => for_each l body s'
  | (Raise e, s') => (Raise e, s')
  end.
Proof. reflexivity. Qed.

(** A loop over [l1 ++ l2] is the loop over [l1] followed, unless it raised,
    by the loop over [l2]. *)
Lemma for_each_app {A} (l1 l2 : list A) (body : A → M W unit) s :
  for_each (l1 ++ l2) body s =
  match for_each l1 body s with
  | (Ok _, s') => for_each l2 body s'
  | (Raise e, s') => (Raise e, s')
  end.
Proof.
  revert s. induction l1 as [|x l1 IH]; intros s; [reflexivity|].
  rewrite <- app_comm_cons, !for_each_cons.
  destruct (body x s) as [[[]|e] s1]; [apply IH | reflexivity].
Qed.

(** ** Relations every step of a computation respects *)

Section stable.
Context (R : relation (State W)) `{!PreOrder R}.

Lemma stable_ret {A} (a : A) : stable R (ret a).
Proof. intros s r s' [= <- <-]. reflexivity. Qed.

Lemma stable_raise {A} e : stable R (@raise W A e).
Proof. intros s r s' [= <- <-]. reflexivity. Qed.

Lemma stable_gets {A} (f : State W → A) : stable R (gets f).
Proof. intros s r s' [= <- <-]. reflexivity. Qed.

Lemma stable_lift {A} (x : exn + A) : stable R (lift x).
Proof. destruct x; [apply stable_raise | apply stable_ret]. Qed.

Lemma stable_lift_opt {A} e (x : option A) : stable R (lift_opt e x).
Proof. destruct x; [apply stable_ret | apply stable_raise]. Qed.

Lemma stable_modify (g : State W → State W) :
  (∀ s, R s (g s)) → stable R (modify g).
Proof. intros Hg s r s' [= <- <-]. apply Hg. Qed.

Lemma stable_bind {A B} (m : M W A) (k : A → M W B) :
  stable R m → (∀ a, stable R (k a)) → stable R (m ≫= k).
Proof.
  intros Hm Hk s r s'. rewrite bind_run.
  destruct (m s) as [[a|e] s1] eqn:E; intros E'.
  - transitivity s1; [eapply Hm, E | eapply Hk, E'].
  - injection E' as <- <-. eapply Hm, E.
Qed.

Lemma stable_for_each {A} (l : list A) (body : A → M W unit) :
  (∀ x, stable R (body x)) → stable R (for_each l body).
Proof.
  intros Hb. induction l as [|x l IH]; [apply stable_ret|].
  apply stable_bind; [apply Hb | intros _; apply IH].
Qed.

Lemma stable_fold_m {A B} (l : list A) (body : A → B → M W B) acc :
  (∀ x b, stable R (body x b)) → stable R (fold_m l body acc).
Proof.
  intros Hb. revert acc. induction l as [|x l IH]; intros acc; [apply stable_ret|].
  apply stable_bind; [apply Hb | intros b; apply IH].
Qed.
End stable.
End monad_facts.

(** Goals [stable R m] for a [m] built from the combinators above; what is
    left is one goal per primitive step. *)
Ltac stable_by l := apply l; try (solve [typeclasses eauto]).

Ltac stable_step :=
  lazymatch goal with
  | |- stable _ (ret _) => stable_by @stable_ret
  | |- stable _ (mret _) => stable_by @stable_ret
  | |- stable _ (raise _) => stable_by @stable_raise
  | |- stable _ (gets _) => stable_by @stable_gets
  | |- stable _ (lift _) => stable_by @stable_lift
  | |- stable _ (lift_opt _ _) => stable_by @stable_lift_opt
  | |- stable _ (_ ≫= _) => stable_by @stable_bind; [|intros ?]
  | |- stable _ (for_each _ _) => stable_by @stable_for_each; intros ?
  | |- stable _ (fold_m _ _ _) => stable_by @stable_fold_m; intros ? ?
  | |- stable _ (modify _) => stable_by @stable_modify; intros ?
  | |- stable _ (match ?x with _ => _ end) => destruct x
  | |- stable _ (λ s, let '(_, _) := _ in _) =>
      let s := fresh "s" in let r := fresh "r" in let s' := fresh "s'" in
      let E := fresh "E" in
      intros s r s' E; cbv beta in E;
      match type of E with
      | (let '(_, _) := ?p in _) = _ => destruct p; injection E as <- <-
      end
  | |- stable _ ((λ _, _) _) => cbv beta
  end.

Ltac stable_auto := repeat stable_step.

Create HintDb agents.
#[global] Hint Unfold
  Connection.lrange_pending Connection.lrange_killed Connection.llen_pending
  Connection.hget_job_details Connection.hget_setting Connection.hlen_running
  Connection.hgetall_running Connection.hexists_running Connection.hget_running
  Connection.hset_running Connection.hdel_running Connection.lrem_pending
  Connection.lrem_killed Connection.hset_setting
  Sys.os_path_exists Sys.os_makedirs Sys.open_log Sys.Popen Sys.call_get_child_pid
  Sys.psutil_pid_exists Sys.os_getpgid Sys.os_killpg Sys.call_close_by_pid
  subscript items range iter redis_write emit sleep : agents.

Ltac stable_prim :=
  stable_auto; autounfold with agents; stable_auto.


(** Running a computation whose steps are known. *)
Ltac run_m :=
  unfold lift, lift_opt, mbind, M_bind, bind, mret, M_ret, ret, raise, gets, modify in *;
  cbn beta iota in *.

(** * The tracker's idle counter *)

Section tracker.
Context `{OS W}.
Import JobTrackingAgent.

#[local] Instance same_count_preorder : PreOrder (@same_count W).
Proof.
  split; [intros s; reflexivity|].
  intros s1 s2 s3 E1 E2; unfold same_count in *; congruence.
Qed.

Lemma check_job_status_same_count : stable same_count _check_job_status.
Proof.
  unfold _check_job_status, check_job.
  repeat (stable_prim; try reflexivity).
Qed.

(** ** The liveness pass on a record with both lists *)

Lemma liveness_loop (pids : list Z) : ∀ (still_alive : bool) (s : State W),
  fold_m (JInt <$> pids)
         (λ pid still_alive,
            e ← Sys.psutil_pid_exists pid;
            ret (if e : bool then true else still_alive)) still_alive s
  = (Ok (still_alive || existsb (pid_exists (world s)) pids), s).
Proof.
  induction pids as [|p pids IH]; intros still_alive s.
  - cbn. by rewrite orb_false_r.
  - cbn [fmap list_fmap fold_m existsb].
    erewrite bind_ok by reflexivity.
    rewrite IH. by destruct (pid_exists (world s) p), still_alive.
Qed.

Lemma check_job_record_run running_job shell_pids command_pids (s : State W) :
  check_job (running_job, running_record shell_pids command_pids) s
  = (fold_m (JInt <$> command_pids)
            (λ pid still_alive,
               e ← Sys.psutil_pid_exists pid;
               ret (if e : bool then true else still_alive)) false
     ≫= λ still_alive : bool,
          if still_alive then ret tt
          else Connection.hdel_running running_job ;;
               Sys.call_close_by_pid (JList (JInt <$> shell_pids)) false) s.
Proof. reflexivity. Qed.

(** No command pid exists: the record goes and the shells are closed. *)
Lemma check_job_finished running_job shell_pids command_pids (s : State W) :
  existsb (pid_exists (world s)) command_pids = false →
  check_job (running_job, running_record shell_pids command_pids) s
  = (Ok tt, reaped running_job shell_pids s).
Proof.
  intros Hdead. rewrite check_job_record_run, bind_run, liveness_loop, Hdead.
  unfold reaped. autounfold with agents. run_m. cbn. by rewrite <- app_assoc.
Qed.

(** Some command pid exists: nothing happens. *)
Lemma check_job_alive running_job shell_pids command_pids (s : State W) :
  existsb (pid_exists (world s)) command_pids = true →
  check_job (running_job, running_record shell_pids command_pids) s = (Ok tt, s).
Proof.
  intros Halive. by rewrite check_job_record_run, bind_run, liveness_loop, Halive.
Qed.

(** The record of a job without instances has neither list. *)
Lemma check_job_empty_record running_job (s : State W) :
  check_job (running_job, json_dumps (json_of_pid_dict (pid_record [] []))) s
  = (Raise (KeyError "command_pids"), s).
Proof. reflexivity. Qed.

Lemma sleep_run (e : external W) s : sleep e s = (Ok tt, woken e s).
Proof. unfold sleep, modify, woken. by destruct (e _ _). Qed.

Lemma check_job_status_nothing s :
  RUNNING_JOB (redis s) = [] → _check_job_status s = (Ok tt, s).
Proof. intros E. unfold _check_job_status, Connection.hgetall_running. run_m. by rewrite E. Qed.

Lemma idle_test_true (r : Redis) :
  idle r →
  bool_decide (hlen (RUNNING_JOB r) = 0)
  && bool_decide (Z.of_nat (length (PENDING_JOB_TICKETS r)) = 0) = true.
Proof. intros [-> ->]. reflexivity. Qed.

Lemma idle_test_false (r : Redis) :
  ¬ idle r →
  bool_decide (hlen (RUNNING_JOB r) = 0)
  && bool_decide (Z.of_nat (length (PENDING_JOB_TICKETS r)) = 0) = false.
Proof.
  intros Hbusy. apply not_true_is_false. intros E. apply Hbusy.
  apply andb_prop in E as [E1 E2].
  apply bool_decide_eq_true in E1, E2. unfold hlen in E1.
  split; [destruct (RUNNING_JOB _) | destruct (PENDING_JOB_TICKETS _)];
    try done; cbn in *; discriminate.
Qed.

(** What [_close_process_cli] does, by cases. *)
Lemma close_process_cli_busy s :
  ¬ idle (redis s) →
  _close_process_cli s = (Ok tt, set_shutdown_count 0 s).
Proof.
  intros Hbusy. unfold _close_process_cli. autounfold with agents. run_m.
  rewrite (idle_test_false _ Hbusy). reflexivity.
Qed.

Lemma close_process_cli_idle s :
  idle (redis s) →
  _shutdown_count s + 1 < 5 →
  _close_process_cli s = (Ok tt, set_shutdown_count (_shutdown_count s + 1) s).
Proof.
  intros Hidle Hc. unfold _close_process_cli. autounfold with agents. run_m.
  rewrite (idle_test_true _ Hidle). cbn.
  rewrite bool_decide_eq_false_2 by lia. reflexivity.
Qed.

Lemma close_process_cli_fire s agent_pid :
  idle (redis s) →
  _shutdown_count s + 1 >= 5 →
  setting_is "agent_pid" agent_pid (redis s) →
  _close_process_cli s =
    (Ok tt, shut_down agent_pid (set_shutdown_count (_shutdown_count s + 1) s)).
Proof.
  intros Hidle Hc Hp. unfold _close_process_cli. autounfold with agents. run_m.
  rewrite (idle_test_true _ Hidle). cbn. rewrite bool_decide_eq_true_2 by lia.
  unfold setting_is in Hp. cbn. rewrite Hp. cbn.
  unfold shut_down. cbn. by rewrite <- app_assoc.
Qed.

Lemma close_process_cli_counts s r s' :
  idle (redis s) →
  _close_process_cli s = (r, s') →
  _shutdown_count s' = _shutdown_count s + 1.
Proof.
  intros Hidle. unfold _close_process_cli. autounfold with agents. run_m.
  rewrite (idle_test_true _ Hidle). cbn. case_bool_decide; cbn.
  - destruct (py_int _); cbn; intros [= <- <-]; reflexivity.
  - intros [= <- <-]; reflexivity.
Qed.

(** One turn of the loop, once the liveness pass has returned. *)
Lemma cycle_run e s s1 :
  _check_job_status s = (Ok tt, s1) →
  cycle e s =
    match py_int (SETTING (redis (woken e s1)) !! "keep_agent_alive") with
    | inl x => (Raise x, woken e s1)
    | inr keep_alive =>
        if bool_decide (keep_alive = 0) then _close_process_cli (woken e s1)
        else (Ok tt, woken e s1)
    end.
Proof.
  intros E. unfold cycle. rewrite (bind_ok _ _ _ _ _ E).
  rewrite (bind_ok _ _ _ _ _ (sleep_run e s1)).
  unfold Connection.hget_setting. run_m.
  destruct (py_int _); [reflexivity|]. by case_bool_decide.
Qed.

Lemma cycle_quiet e s agent_pid :
  RUNNING_JOB (redis s) = [] →
  leaves (quiet_store agent_pid) e →
  cycle e s = _close_process_cli (woken e s) ∧ quiet_store agent_pid (redis (woken e s)).
Proof.
  intros Hrun He. rewrite (cycle_run e s s (check_job_status_nothing s Hrun)).
  pose proof (He (redis s) (world s)) as Hq. split; [|exact Hq].
  destruct Hq as (_ & Hk & _). unfold setting_is in Hk. cbn. rewrite Hk. reflexivity.
Qed.

(** Idle cycles that do not reach the threshold only count. *)
Lemma run_counts (schedule : list (external W)) agent_pid : ∀ s,
  RUNNING_JOB (redis s) = [] →
  Forall (leaves (quiet_store agent_pid)) schedule →
  _shutdown_count s + Z.of_nat (length schedule) < 5 →
  ∃ s', run schedule s = (Ok tt, s')
        ∧ trace s' = trace s
        ∧ _shutdown_count s' = _shutdown_count s + Z.of_nat (length schedule)
        ∧ RUNNING_JOB (redis s') = [].
Proof.
  induction schedule as [|e schedule IH]; intros s Hrun Hs Hc.
  - exists s. cbn. repeat split; [lia | done].
  - apply Forall_cons in Hs as [He Hs]. cbn [length] in Hc.
    destruct (cycle_quiet e s agent_pid Hrun He) as [Ecyc (Hidle & _ & _)].
    rewrite close_process_cli_idle in Ecyc by (done || cbn; lia).
    destruct (IH (set_shutdown_count (_shutdown_count (woken e s) + 1) (woken e s)))
      as (s' & Erun & Etr & Ec & Hr); [apply Hidle | done | cbn; lia |].
    exists s'. unfold run in *. rewrite for_each_cons, Ecyc.
    repeat split; [done | done | cbn [length] in *; cbn in Ec; lia | done].
Qed.

(** The cycle that reaches the threshold closes the master. *)
Lemma run_fires (schedule : list (external W)) agent_pid : ∀ s,
  RUNNING_JOB (redis s) = [] →
  Forall (leaves (quiet_store agent_pid)) schedule →
  schedule ≠ [] →
  _shutdown_count s + Z.of_nat (length schedule) = 5 →
  ∃ s', run schedule s = (Ok tt, s')
        ∧ trace s' = trace s ++ [ECloseByPid (JInt agent_pid) true;
                                 EHSetSetting "agent_status" (Num 0)]
        ∧ _shutdown_count s' = 5
        ∧ setting_is "agent_status" 0 (redis s').
Proof.
  induction schedule as [|e schedule IH]; intros s Hrun Hs Hne Hc; [done|].
  apply Forall_cons in Hs as [He Hs]. cbn [length] in Hc.
  destruct (cycle_quiet e s agent_pid Hrun He) as [Ecyc (Hidle & Hk & Hp)].
  unfold run in *. rewrite for_each_cons, Ecyc.
  destruct schedule as [|e' schedule].
  - rewrite (close_process_cli_fire _ agent_pid) by (done || cbn in *; lia).
    eexists. split; [reflexivity|]. cbn in *. repeat split; [lia|].
    unfold setting_is. cbn. apply lookup_insert_eq.
  - rewrite close_process_cli_idle by (done || cbn in *; lia).
    destruct (IH (set_shutdown_count (_shutdown_count (woken e s) + 1) (woken e s)))
      as (s' & Erun & Etr & Ec & Hst); [apply Hidle | done | done | cbn in *; lia |].
    exists s'. done.
Qed.

(** A cycle under the keep-alive override leaves the counter alone, whether
    the liveness pass returns or raises. *)
Lemma cycle_kept_alive e s :
  leaves kept_alive e →
  _shutdown_count (cycle e s).2 = _shutdown_count s
  ∧ ((cycle e s).1 = Ok tt ∨ (cycle e s).1 = (_check_job_status s).1).
Proof.
  intros He. destruct (_check_job_status s) as [[[]|x] s1] eqn:E.
  - rewrite (cycle_run e s s1 E).
    destruct (He (redis s1) (world s1)) as (k & Hk & Hset).
    unfold setting_is in Hset. cbn. rewrite Hset. cbn.
    rewrite bool_decide_eq_false_2 by done. cbn.
    split; [|by left]. exact (check_job_status_same_count _ _ _ E).
  - unfold cycle. rewrite (bind_raise _ _ _ _ _ E). cbn.
    split; [|by right]. exact (check_job_status_same_count _ _ _ E).
Qed.

Lemma run_kept_alive (schedule : list (external W)) : ∀ s,
  Forall (leaves kept_alive) schedule →
  _shutdown_count (run schedule s).2 = _shutdown_count s.
Proof.
  induction schedule as [|e schedule IH]; intros s Hs; [reflexivity|].
  apply Forall_cons in Hs as [He Hs].
  destruct (cycle_kept_alive e s He) as [Ec _].
  unfold run in *. rewrite for_each_cons.
  destruct (cycle e s) as [[[]|x] s1]; cbn in Ec; [|done].
  rewrite IH by done. done.
Qed.

(** C4. Starting from an idle counter of 0, a run of idle cycles (both
    queues empty, no keep-alive override) only counts until the fifth: the
    fifth closes the master's process tree through the stored [agent_pid],
    recursively, and sets [agent_status] to 0.  A cycle that finds a
    non-empty pending list or running hash puts the counter back to 0. *)
Theorem idle_shutdown_after_five_cycles
    (s : State W) (schedule : list (external W)) (agent_pid : Z) :
  _shutdown_count s = 0 →
  RUNNING_JOB (redis s) = [] →
  Forall (leaves (quiet_store agent_pid)) schedule →
  (length schedule ≤ 5)%nat →
  (∃ s', run schedule s = (Ok tt, s')
         ∧ _shutdown_count s' = Z.of_nat (length schedule)
         ∧ if decide (length schedule = 5%nat)
           then trace s' = trace s ++ [ECloseByPid (JInt agent_pid) true;
                                       EHSetSetting "agent_status" (Num 0)]
                ∧ setting_is "agent_status" 0 (redis s')
           else trace s' = trace s)
  ∧ (∀ s0 s1 e,
       _check_job_status s0 = (Ok tt, s1) →
       leaves busy_store e →
       ∃ s', cycle e s0 = (Ok tt, s') ∧ _shutdown_count s' = 0 ∧ trace s' = trace s1).
Proof.
  intros Hc Hrun Hs Hlen. split.
  - case_decide as Hfive.
    + destruct (run_fires schedule agent_pid s) as (s' & E & Ht & Hc' & Hst);
        [done | done | by intros -> | lia |].
      exists s'. repeat split; [done | lia | done | done].
    + destruct (run_counts schedule agent_pid s) as (s' & E & Ht & Hc' & _);
        [done | done | lia |].
      exists s'. repeat split; [done | lia | done].
  - intros s0 s1 e E He. rewrite (cycle_run e s0 s1 E).
    destruct (He (redis s1) (world s1)) as [Hbusy Hk].
    unfold setting_is in Hk. cbn. rewrite Hk. cbn.
    rewrite close_process_cli_busy by exact Hbusy.
    eexists. split; [reflexivity|]. done.
Qed.

(** C10. While the keep-alive override is set the idle counter is frozen:
    however many cycles go by, and whatever they find, it keeps its value;
    the first idle cycle after the override is cleared counts on from that
    value. *)
Theorem keep_alive_freezes_idle_counter
    (s : State W) (schedule : list (external W)) (e : external W) (s1 : State W) :
  Forall (leaves kept_alive) schedule →
  _check_job_status (run schedule s).2 = (Ok tt, s1) →
  leaves (λ r, idle r ∧ setting_is "keep_agent_alive" 0 r) e →
  _shutdown_count (run schedule s).2 = _shutdown_count s
  ∧ _shutdown_count (cycle e (run schedule s).2).2 = _shutdown_count s + 1.
Proof.
  intros Hs E He. pose proof (run_kept_alive schedule s Hs) as Hfrozen.
  split; [exact Hfrozen|].
  rewrite (cycle_run e _ s1 E).
  destruct (He (redis s1) (world s1)) as [Hidle Hk].
  unfold setting_is in Hk. cbn. rewrite Hk. cbn.
  rewrite bool_decide_eq_true_2 by done.
  destruct (_close_process_cli (woken e s1)) as [r s2] eqn:Ecl.
  apply close_process_cli_counts in Ecl; [|exact Hidle].
  cbn in *. rewrite Ecl, <- Hfrozen.
  f_equal. exact (check_job_status_same_count _ _ _ E).
Qed.
End tracker.

Lemma idle_shutdown_after_five_cycles_witness :
  (∃ s', JobTrackingAgent.run (replicate 5 (leave quiet_redis)) (boot quiet_redis) = (Ok tt, s')
         ∧ trace s' = [ECloseByPid (JInt 4242) true; EHSetSetting "agent_status" (Num 0)]
         ∧ setting_is "agent_status" 0 (redis s'))
  ∧ (∃ s', JobTrackingAgent.cycle (leave busy_redis)
             (set_shutdown_count 4 (boot quiet_redis)) = (Ok tt, s')
           ∧ _shutdown_count s' = 0).
Proof.
  destruct (idle_shutdown_after_five_cycles
              (boot quiet_redis) (replicate 5 (leave quiet_redis)) 4242)
    as [(s' & E & _ & Ht & Hst) Hreset].
  - reflexivity.
  - reflexivity.
  - apply Forall_replicate. intros r w. repeat split.
  - cbn. lia.
  - split.
    + exists s'. repeat split; [exact E | exact Ht | exact Hst].
    + destruct (Hreset (set_shutdown_count 4 (boot quiet_redis))
                  (set_shutdown_count 4 (boot quiet_redis)) (leave busy_redis))
        as (s2 & E2 & Hc2 & _).
      * reflexivity.
      * intros r w. split; [|reflexivity]. intros [_ Hp]. discriminate Hp.
      * exists s2. split; [exact E2 | exact Hc2].
Defined.

Lemma keep_alive_freezes_idle_counter_witness :
  _shutdown_count
    (JobTrackingAgent.run (replicate 3 (leave kept_alive_redis))
       (set_shutdown_count 2 (boot quiet_redis))).2 = 2
  ∧ _shutdown_count
      (JobTrackingAgent.cycle (leave quiet_redis)
         (JobTrackingAgent.run (replicate 3 (leave kept_alive_redis))
            (set_shutdown_count 2 (boot quiet_redis))).2).2 = 2 + 1.
Proof.
  apply (keep_alive_freezes_idle_counter
           (set_shutdown_count 2 (boot quiet_redis))
           (replicate 3 (leave kept_alive_redis)) (leave quiet_redis)
           (JobTrackingAgent.run (replicate 3 (leave kept_alive_redis))
              (set_shutdown_count 2 (boot quiet_redis))).2).
  - apply Forall_replicate. intros r w. exists 1. split; [lia | reflexivity].
  - reflexivity.
  - intros r w. repeat split.
Defined.

(** * The scheduler *)

Section scheduler.
Context `{OS W}.
Import PendingJobAgent.

#[local] Instance launches_preorder : PreOrder (@launches W).
Proof.
  split.
  - intros s. repeat split. exists []. split; [by rewrite app_nil_r | constructor].
  - intros s1 s2 s3 (Er1 & Ec1 & evs1 & Et1 & Hq1) (Er2 & Ec2 & evs2 & Et2 & Hq2).
    repeat split; [congruence | congruence |].
    exists (evs1 ++ evs2). split; [by rewrite Et2, Et1, app_assoc | by apply Forall_app].
Qed.

Lemma launches_emit (e : event) (s : State W) :
  is_write e = false →
  launches s (mkState (redis s) (world s) (trace s ++ [e]) (_shutdown_count s)).
Proof. intros He. repeat split. exists [e]. split; [done | by constructor]. Qed.

Lemma launches_world (w : W) (s : State W) : launches s (set_world w s).
Proof. repeat split. exists []. split; [by rewrite app_nil_r | constructor]. Qed.

Ltac launches_prim :=
  stable_prim;
  first [ reflexivity
        | apply launches_world
        | apply launches_emit; reflexivity ].

Lemma launch_launches jd c cmd i pd : stable launches (launch jd c cmd i pd).
Proof. unfold launch. launches_prim. Qed.

Lemma launch_component_launches jd c pd : stable launches (launch_component jd c pd).
Proof.
  unfold launch_component. destruct c as [component_type command_info].
  stable_prim. apply launch_launches.
Qed.

(** A computation that ends like [_start_job] still does after some
    launches. *)
Lemma start_job_ends_after {A} jd (m : M W A) (k : A → M W unit) :
  stable launches m →
  (∀ a s r s', k a s = (r, s') → start_job_ends jd s r s') →
  ∀ s r s', (m ≫= k) s = (r, s') → start_job_ends jd s r s'.
Proof.
  intros Hm Hk s r s'. rewrite bind_run.
  destruct (m s) as [[a|x] s1] eqn:E; intros E'.
  - destruct (Hm _ _ _ E) as (Er & Ec & evs1 & Et & Hq1).
    destruct (Hk _ _ _ _ E') as (Ec' & evs2 & Hq2 & Hend).
    split; [congruence|]. exists (evs1 ++ evs2). split; [by apply Forall_app|].
    destruct Hend as [(x & -> & Et' & Er')|(name & field & v & -> & Hn & Hf & Et' & Er')].
    + left. exists x. repeat split; [|congruence]. by rewrite Et', Et, app_assoc.
    + right. exists name, field, v. repeat split; try done.
      * by rewrite Et', Et, !app_assoc.
      * by rewrite Er', Er.
  - injection E' as <- <-.
    destruct (Hm _ _ _ E) as (Er & Ec & evs1 & Et & Hq1).
    split; [done|]. exists evs1. split; [done|]. left. by exists x.
Qed.

Lemma start_job_ends_raise jd x (s : State W) : start_job_ends jd s (Raise x) s.
Proof.
  split; [done|]. exists []. split; [constructor|]. left. exists x.
  by rewrite app_nil_r.
Qed.

Lemma start_job_shape jd s r s' :
  _start_job jd s = (r, s') → start_job_ends jd s r s'.
Proof.
  unfold _start_job. revert s r s'.
  destruct jd as [| | | | |d];
    try (intros s0 r s' E; unfold subscript in E; run_m; injection E as <- <-;
         apply start_job_ends_raise).
  apply start_job_ends_after; [stable_prim|]. intros components.
  apply start_job_ends_after; [stable_prim|]. intros comps.
  apply start_job_ends_after; [stable_prim; apply launch_component_launches|].
  intros pid_dict s r s'. cbn.
  destruct (dict_get "name" d) as [name|] eqn:En;
    [|intros [= <- <-]; apply start_job_ends_raise].
  unfold Connection.hset_running. autounfold with agents. run_m.
  destruct (redis_field name) as [x|field] eqn:Ef;
    [intros [= <- <-]; apply start_job_ends_raise|].
  intros [= <- <-]. split; [done|]. exists []. split; [constructor|].
  right. exists name, field, (json_dumps (json_of_pid_dict pid_dict)).
  repeat split; done.
Qed.

(** One pass of the loop body, by cases. *)
Lemma examine_run pending_job s :
  examine pending_job s =
  match json_loads (JOB_DETAILS (redis s) !! pending_job) with
  | inl x => (Raise x, s)
  | inr job_detail =>
      match py_int (SETTING (redis s) !! "parallel_level") with
      | inl x => (Raise x, s)
      | inr cap =>
          if bool_decide (cap > hlen (RUNNING_JOB (redis s))) then
            match _start_job job_detail s with
            | (Ok _, s1) => (Ok tt, ticket_removed pending_job s1)
            | (Raise x, s1) => (Raise x, s1)
            end
          else (Ok tt, s)
      end
  end.
Proof.
  unfold examine. autounfold with agents. run_m.
  destruct (json_loads _); [reflexivity|].
  destruct (py_int _); [reflexivity|].
  case_bool_decide; [|reflexivity].
  destruct (_start_job _ s) as [[[]|x] s1]; reflexivity.
Qed.

Lemma check_pending_ticket_run s :
  _check_pending_ticket s = for_each (PENDING_JOB_TICKETS (redis s)) examine s.
Proof. reflexivity. Qed.

(** ** The parallelism cap *)

Lemma hlen_hset {V} k (v : V) h : hlen (hset k v h) ≤ hlen h + 1.
Proof.
  unfold hlen. induction h as [|[k' v'] h IH]; cbn; [lia|].
  case_decide; cbn [length]; lia.
Qed.

#[local] Instance within_cap_preorder cap : PreOrder (@within_cap W cap).
Proof.
  split; [by intros s|].
  intros s1 s2 s3 H12 H23 Hs Hc. destruct (H12 Hs Hc). by apply H23.
Qed.

Lemma examine_within_cap cap pending_job : stable (within_cap cap) (examine pending_job).
Proof.
  intros s r s'. rewrite examine_run. intros E Hs Hc.
  destruct (json_loads _); [by injection E as <- <-|].
  unfold setting_is in Hs. rewrite Hs in E. cbn in E.
  case_bool_decide as Hroom; [|by injection E as <- <-].
  destruct (_start_job j s) as [r1 s1] eqn:Es.
  apply start_job_shape in Es as (_ & evs & _ & Hend).
  assert (SETTING (redis s1) = SETTING (redis s)
          ∧ hlen (RUNNING_JOB (redis s1)) ≤ hlen (RUNNING_JOB (redis s)) + 1)
    as [Eset Elen].
  { destruct Hend as [(x & _ & _ & ->)|(name & field & v & _ & _ & _ & _ & ->)].
    - split; [done | lia].
    - split; [done | apply hlen_hset]. }
  assert (setting_is "parallel_level" cap (redis s1)
          ∧ hlen (RUNNING_JOB (redis s1)) ≤ cap) as Hs1.
  { unfold setting_is. rewrite Eset. split; [done | lia]. }
  destruct r1 as [[]|x]; by injection E as <- <-.
Qed.

(** C2. Within a scheduler cycle, after the decision on every ticket (and
    so at the end of the cycle), the running-job hash holds no more
    entries than [parallel_level], if it did when the cycle began. *)
Theorem running_jobs_within_parallel_level
    (s : State W) (cap : Z) (examined rest : list string) :
  setting_is "parallel_level" cap (redis s) →
  hlen (RUNNING_JOB (redis s)) ≤ cap →
  PENDING_JOB_TICKETS (redis s) = examined ++ rest →
  hlen (RUNNING_JOB (redis (for_each examined examine s).2)) ≤ cap
  ∧ hlen (RUNNING_JOB (redis (_check_pending_ticket s).2)) ≤ cap.
Proof.
  intros Hs Hc _.
  assert (∀ l, hlen (RUNNING_JOB (redis (for_each l examine s).2)) ≤ cap) as Hall.
  { intros l. destruct (for_each l examine s) as [r s'] eqn:E.
    eapply (stable_for_each (within_cap cap)) in E;
      [by destruct (E Hs Hc) | intros t; apply examine_within_cap]. }
  split; [apply Hall | rewrite check_pending_ticket_run; apply Hall].
Qed.

(** ** A ticket examined when the cap is reached *)

Lemma examine_cap_reached s cap pending_job :
  setting_is "parallel_level" cap (redis s) →
  cap ≤ hlen (RUNNING_JOB (redis s)) →
  (examine pending_job s).2 = s
  ∧ (is_Some (JOB_DETAILS (redis s) !! pending_job ≫= λ v,
                match v with Doc j => Some j | Malformed _ => None end) →
     examine pending_job s = (Ok tt, s)).
Proof.
  intros Hs Hc. rewrite examine_run. unfold setting_is in Hs. rewrite Hs. cbn.
  rewrite bool_decide_eq_false_2 by lia.
  destruct (JOB_DETAILS (redis s) !! pending_job) as [[j|raw]|]; cbn;
    (split; [done|]); intros [j' Hj]; done.
Qed.

(** C7. A ticket examined when the cap is reached is neither spawned nor
    removed: the state is exactly what it was.  The loop goes on with the
    tickets after it, in order, and - the cap staying reached - leaves the
    state as it is to the end of the cycle, so that the ticket is there for
    the next one. *)
Theorem cap_reached_ticket_stays
    (s : State W) (cap : Z) (pending_job : string) (job_detail : json)
    (rest : list string) :
  setting_is "parallel_level" cap (redis s) →
  cap ≤ hlen (RUNNING_JOB (redis s)) →
  JOB_DETAILS (redis s) !! pending_job = Some (Doc job_detail) →
  examine pending_job s = (Ok tt, s)
  ∧ for_each (pending_job :: rest) examine s = for_each rest examine s
  ∧ (for_each rest examine s).2 = s.
Proof.
  intros Hs Hc Hj.
  destruct (examine_cap_reached s cap pending_job Hs Hc) as [_ Hok].
  rewrite Hj in Hok. specialize (Hok ltac:(by eexists)).
  split; [exact Hok|]. split; [by rewrite for_each_cons, Hok|].
  clear Hok Hj. induction rest as [|t rest IH]; [reflexivity|].
  rewrite for_each_cons.
  destruct (examine_cap_reached s cap t Hs Hc) as [Est _].
  destruct (examine t s) as [[[]|x] s1]; cbn in Est; subst s1; [exact IH | reflexivity].
Qed.

(** ** No job is lost on admission *)

Lemma replay_app evs1 evs2 r : replay (evs1 ++ evs2) r = replay evs2 (replay evs1 r).
Proof. apply fold_left_app. Qed.

Lemma visited_app evs1 evs2 r :
  visited (evs1 ++ evs2) r = visited evs1 r ++ visited evs2 (replay evs1 r).
Proof.
  revert r. induction evs1 as [|e evs1 IH]; intros r; [reflexivity|].
  cbn. by rewrite IH.
Qed.

Lemma visited_last (I : Redis → Prop) evs r :
  I r → Forall I (visited evs r) → I (replay evs r).
Proof.
  revert r. induction evs as [|e evs IH]; intros r Hr Hv; [exact Hr|].
  cbn in *. apply Forall_cons in Hv as [He Hv]. by apply IH.
Qed.

Lemma os_only_replay evs r : os_only evs → replay evs r = r.
Proof.
  induction 1 as [|e evs He _ IH]; [reflexivity|].
  cbn. by destruct e.
Qed.

Lemma os_only_visited (I : Redis → Prop) evs r :
  os_only evs → I r → Forall I (visited evs r).
Proof.
  induction 1 as [|e evs He _ IH]; intros Hr; [constructor|].
  cbn. assert (apply_event e r = r) as -> by by destruct e.
  constructor; auto.
Qed.

Lemma os_only_no_removal job evs : os_only evs → ELRemPending job ∉ evs.
Proof.
  intros Hq Hin. unfold os_only in Hq. rewrite Forall_forall in Hq.
  by apply Hq in Hin.
Qed.

Lemma written_before_removed_app job evs1 evs2 :
  written_before_removed job evs1 → written_before_removed job evs2 →
  written_before_removed job (evs1 ++ evs2).
Proof.
  intros H1 H2 before after E. apply app_eq_inv in E as [(k & E1 & E2)|(k & E1 & E2)].
  - destruct k as [|x k].
    + cbn in E2. symmetry in E2. destruct (H2 [] after E2) as [v Hv].
      by apply elem_of_nil in Hv.
    + injection E2 as <- _. eapply H1, E1.
  - destruct (H2 k after E2) as [v Hv]. exists v. subst before.
    apply elem_of_app. by right.
Qed.

Lemma written_before_removed_none job evs :
  ELRemPending job ∉ evs → written_before_removed job evs.
Proof.
  intros Hnot before after ->. exfalso. apply Hnot.
  apply elem_of_app. right. by left.
Qed.

Lemma elem_of_hkeys_hset {V} k (v : V) h k' :
  k' ∈ hkeys (hset k v h) ↔ k' = k ∨ k' ∈ hkeys h.
Proof.
  unfold hkeys. induction h as [|[k0 v0] h IH]; cbn.
  - rewrite list_elem_of_singleton, elem_of_nil. tauto.
  - destruct (decide (k0 = k)) as [->|Hne]; cbn; rewrite !elem_of_cons;
      [|rewrite IH]; tauto.
Qed.

Lemma hkeys_hset_new {V} k (v : V) h : k ∈ hkeys (hset k v h).
Proof. apply elem_of_hkeys_hset. by left. Qed.

Lemma hkeys_hset_old {V} k (v : V) h k' : k' ∈ hkeys h → k' ∈ hkeys (hset k v h).
Proof. intros Hin. apply elem_of_hkeys_hset. by right. Qed.

#[local] Instance never_lost_preorder job : PreOrder (@never_lost W job).
Proof.
  split.
  - intros s _ _. exists []. rewrite app_nil_r. repeat split; [constructor|].
    intros before after E. by destruct before.
  - intros s1 s2 s3 H12 H23 Hk Hp.
    destruct (H12 Hk Hp) as (evs1 & Et1 & Er1 & Hv1 & Ho1).
    pose proof (visited_last _ evs1 (redis s1) (conj Hk Hp) Hv1) as [Hk2 Hp2].
    rewrite <- Er1 in Hk2, Hp2.
    destruct (H23 Hk2 Hp2) as (evs2 & Et2 & Er2 & Hv2 & Ho2).
    exists (evs1 ++ evs2). repeat split.
    + by rewrite Et2, Et1, app_assoc.
    + by rewrite replay_app, <- Er1.
    + rewrite visited_app, <- Er1. by apply Forall_app.
    + by apply written_before_removed_app.
Qed.

Lemma examine_never_lost job pending_job : stable (never_lost job) (examine pending_job).
Proof.
  intros s r s'. rewrite examine_run.
  destruct (JOB_DETAILS (redis s) !! pending_job) as [[j|raw]|] eqn:Ej; cbn;
    try (intros [= <- <-]; reflexivity).
  destruct (py_int _); [intros [= <- <-]; reflexivity|].
  case_bool_decide; [|intros [= <- <-]; reflexivity].
  destruct (_start_job j s) as [r1 s1] eqn:Es.
  apply start_job_shape in Es as (_ & evs & Hq & Hend).
  intros E Hk Hp.
  destruct Hend as [(x & -> & Et & Er)|(name & field & v & -> & Hn & Hf & Et & Er)];
    injection E as <- <-.
  - exists evs. repeat split; [done | by rewrite os_only_replay | |].
    + by apply os_only_visited.
    + by apply written_before_removed_none, os_only_no_removal.
  - exists (evs ++ [EHSetRunning field v] ++ [ELRemPending pending_job]).
    assert (present job (apply_event (EHSetRunning field v) (redis s))) as Hp1.
    { destruct Hp as [Hp|Hp]; [by left|]. right. by apply hkeys_hset_old. }
    assert (present job (apply_event (ELRemPending pending_job)
                           (apply_event (EHSetRunning field v) (redis s)))) as Hp2.
    { destruct (decide (pending_job = job)) as [->|Hne].
      - right. specialize (Hk j name Ej Hn). subst name.
        injection Hf as <-. apply hkeys_hset_new.
      - destruct Hp1 as [Hp1|Hp1]; [left | by right].
        cbn in *. apply list_elem_of_filter. by split. }
    repeat split.
    + cbn. rewrite Et, <- !app_assoc. reflexivity.
    + rewrite replay_app, (os_only_replay evs) by done. cbn. by rewrite Er.
    + rewrite visited_app, (os_only_replay evs) by done.
      apply Forall_app. split; [by apply os_only_visited|].
      repeat (apply Forall_cons; split; [split; [exact Hk | assumption]|]).
      constructor.
    + apply written_before_removed_app;
        [by apply written_before_removed_none, os_only_no_removal|].
      intros before after E.
      destruct before as [|e0 [|e1 before]]; simplify_eq/=.
      * exists v. specialize (Hk j name Ej Hn). subst name.
        injection Hf as <-. by left.
      * by destruct before.
Qed.

(** C9. Take a job that is queued (or already running) when a scheduler
    cycle starts, with its details stored under its own name.  Every store
    the cycle goes through has the job in the pending list or in the
    running hash, and the trace removes the job's ticket only after it has
    written a record for the job. *)
Theorem admission_never_loses_job (s : State W) (job : string) :
  keyed_by_name job (redis s) →
  present job (redis s) →
  ∃ evs, trace (_check_pending_ticket s).2 = trace s ++ evs
         ∧ redis (_check_pending_ticket s).2 = replay evs (redis s)
         ∧ Forall (present job) (redis s :: visited evs (redis s))
         ∧ written_before_removed job evs.
Proof.
  intros Hk Hp. rewrite check_pending_ticket_run.
  destruct (for_each _ examine s) as [r s'] eqn:E.
  eapply (stable_for_each (never_lost job)) in E;
    [|intros t; apply examine_never_lost].
  destruct (E Hk Hp) as (evs & Et & Er & Hv & Ho).
  exists evs. repeat split; try done.
  constructor; [done|]. eapply Forall_impl; [exact Hv|]. by intros r' [_ ?].
Qed.

(** ** Starting a job *)

Lemma launched_nil (s : State W) : launched s s [] [].
Proof. repeat split; [by rewrite app_nil_r | constructor]. Qed.

Lemma launched_app (s s1 s2 : State W) evs1 evs2 i1 i2 :
  launched s s1 evs1 i1 → launched s1 s2 evs2 i2 →
  launched s s2 (evs1 ++ evs2) (i1 ++ i2).
Proof.
  intros (Et1 & Er1 & Hq1 & Hs1 & Hc1) (Et2 & Er2 & Hq2 & Hs2 & Hc2).
  unfold launched, shell_pids_of, spawned, resolved in *.
  rewrite !omap_app, !fmap_app. repeat split; try congruence.
  - by rewrite Et2, Et1, app_assoc.
  - by apply Forall_app.
Qed.

Lemma shell_pids_of_app evs1 evs2 :
  shell_pids_of (evs1 ++ evs2) = shell_pids_of evs1 ++ shell_pids_of evs2.
Proof. unfold shell_pids_of, spawned. by rewrite omap_app, fmap_app. Qed.

Lemma command_pids_of_app evs1 evs2 :
  command_pids_of (evs1 ++ evs2) = command_pids_of evs1 ++ command_pids_of evs2.
Proof. unfold command_pids_of, resolved. by rewrite omap_app, fmap_app. Qed.

Lemma launched_lengths (s s' : State W) evs insts :
  launched s s' evs insts →
  length (shell_pids_of evs) = length insts
  ∧ length (command_pids_of evs) = length insts.
Proof.
  intros (_ & _ & _ & Hs & Hc). unfold shell_pids_of, command_pids_of in *.
  rewrite <- Hs. split; [by rewrite !length_fmap|].
  apply (f_equal length) in Hc. rewrite !length_fmap in *. done.
Qed.

Lemma pid_record_append shell_pids command_pids pid child :
  length shell_pids = length command_pids →
  defaultdict_append "command_pids" child
    (defaultdict_append "shell_pids" pid (pid_record shell_pids command_pids))
  = pid_record (shell_pids ++ [pid]) (command_pids ++ [child]).
Proof.
  intros Hlen. destruct shell_pids as [|p ps]; [|reflexivity].
  by destruct command_pids.
Qed.

Lemma bind_ok_inv {A B} (m : M W A) (k : A → M W B) s b s' :
  (m ≫= k) s = (Ok b, s') → ∃ a s1, m s = (Ok a, s1) ∧ k a s1 = (Ok b, s').
Proof.
  rewrite bind_run. destruct (m s) as [[a|x] s1]; [eauto | discriminate].
Qed.

(** One instance, when the directory, the log file and the shell are all
    granted. *)
Lemma launch_run jd name component_type cmd num shell_pids command_pids s r s' :
  json_get "name" jd = Some name →
  length shell_pids = length command_pids →
  launch jd component_type (JStr cmd) num (pid_record shell_pids command_pids) s
  = (Ok r, s') →
  ∃ evs,
    r = pid_record (shell_pids ++ shell_pids_of evs)
                   (command_pids ++ command_pids_of evs)
    ∧ launched s s' evs
        [([cmd], log_file_name (job_local_path name) component_type num)].
Proof.
  intros Hn Hlen. destruct jd as [| | | | |d]; try discriminate Hn. cbn in Hn.
  unfold launch. autounfold with agents. run_m. rewrite Hn.
  set (path := job_local_path name).
  set (log := log_file_name path component_type num).
  destruct (path_exists (world s) path); cbn.
  2: destruct (makedirs path (world s)) as [x|w0]; cbn; [discriminate|].
  all: destruct (open_w log _) as [x|w1]; cbn; [discriminate|].
  all: destruct (popen [cmd] log _) as [x|[pid w2]]; cbn; [discriminate|].
  all: destruct (get_child_pid pid _) as [child w3]; cbn.
  all: rewrite pid_record_append by done.
  all: intros [= <- <-].
  1: exists [EOpen log; EPopen [cmd] log pid; EGetChildPid pid child].
  2: exists [EMakedirs path; EOpen log; EPopen [cmd] log pid; EGetChildPid pid child].
  all: split; [reflexivity|].
  all: unfold launched; cbn; rewrite <- ?app_assoc.
  all: repeat split; repeat constructor.
Qed.

(** The inner loop: the instances of one component. *)
Lemma launch_instances jd name component_type cmd nums :
  json_get "name" jd = Some name →
  ∀ shell_pids command_pids s r s',
  length shell_pids = length command_pids →
  fold_m nums (launch jd component_type (JStr cmd))
         (pid_record shell_pids command_pids) s = (Ok r, s') →
  ∃ evs,
    r = pid_record (shell_pids ++ shell_pids_of evs)
                   (command_pids ++ command_pids_of evs)
    ∧ launched s s' evs
        ((λ i, ([cmd], log_file_name (job_local_path name) component_type i)) <$> nums).
Proof.
  intros Hn. induction nums as [|i nums IH]; intros shell_pids command_pids s r s' Hlen E.
  - injection E as <- <-. exists []. cbn. rewrite !app_nil_r.
    split; [reflexivity | apply launched_nil].
  - cbn [fold_m] in E. apply bind_ok_inv in E as (r1 & s1 & E1 & E2).
    destruct (launch_run jd name component_type cmd i shell_pids command_pids
                s r1 s1 Hn Hlen E1) as (evs1 & -> & L1).
    destruct (launched_lengths _ _ _ _ L1) as [Hl1 Hl2].
    destruct (IH (shell_pids ++ shell_pids_of evs1)
                 (command_pids ++ command_pids_of evs1) s1 r s')
      as (evs2 & -> & L2); [rewrite !length_app; lia | exact E2 |].
    exists (evs1 ++ evs2). split.
    + by rewrite shell_pids_of_app, command_pids_of_app, !app_assoc.
    + apply (launched_app _ _ _ _ _ [_] _ L1 L2).
Qed.

Lemma launch_component_run jd c pid_dict s :
  launch_component jd (component_json c) pid_dict s
  = fold_m (Z.of_nat <$> seq 0 (Z.to_nat c.2.1)) (launch jd c.1 (JStr c.2.2)) pid_dict s.
Proof. reflexivity. Qed.

(** The outer loop: all the components. *)
Lemma launch_components jd name components :
  json_get "name" jd = Some name →
  ∀ shell_pids command_pids s r s',
  length shell_pids = length command_pids →
  fold_m (component_json <$> components) (launch_component jd)
         (pid_record shell_pids command_pids) s = (Ok r, s') →
  ∃ evs,
    r = pid_record (shell_pids ++ shell_pids_of evs)
                   (command_pids ++ command_pids_of evs)
    ∧ launched s s' evs (instances (job_local_path name) components).
Proof.
  intros Hn. induction components as [|c components IH];
    intros shell_pids command_pids s r s' Hlen E.
  - injection E as <- <-. exists []. cbn. rewrite !app_nil_r.
    split; [reflexivity | apply launched_nil].
  - cbn [fmap list_fmap fold_m] in E. apply bind_ok_inv in E as (r1 & s1 & E1 & E2).
    rewrite launch_component_run in E1.
    destruct (launch_instances jd name c.1 c.2.2 (Z.of_nat <$> seq 0 (Z.to_nat c.2.1))
                Hn shell_pids command_pids s r1 s1 Hlen E1) as (evs1 & -> & L1).
    rewrite <- list_fmap_compose in L1.
    destruct (launched_lengths _ _ _ _ L1) as [Hl1 Hl2].
    destruct (IH (shell_pids ++ shell_pids_of evs1)
                 (command_pids ++ command_pids_of evs1) s1 r s')
      as (evs2 & -> & L2); [rewrite !length_app; lia | exact E2 |].
    exists (evs1 ++ evs2). split.
    + by rewrite shell_pids_of_app, command_pids_of_app, !app_assoc.
    + apply (launched_app _ _ _ _ _ _ _ L1 L2).
Qed.

Lemma length_instances path components :
  length (instances path components) = total_instances components.
Proof.
  unfold instances, total_instances. induction components as [|c components IH];
    [reflexivity|].
  cbn. rewrite length_app, length_fmap, length_seq. by rewrite IH.
Qed.

Lemma dict_get_hset {V} k (v : V) h : dict_get k (hset k v h) = Some v.
Proof.
  induction h as [|[k' v'] h IH]; cbn.
  - by rewrite decide_True.
  - destruct (decide (k' = k)) as [->|Hne]; cbn;
      [by rewrite decide_True | by rewrite decide_False].
Qed.

Lemma start_job_spec_run name components s :
  _start_job (job_spec name components) s
  = (fold_m (component_json <$> components)
            (launch_component (job_spec name components)) []
     ≫= λ pid_dict,
          redis_write (EHSetRunning name (json_dumps (json_of_pid_dict pid_dict)))) s.
Proof. reflexivity. Qed.

(** The record [_start_job] writes is the document with the two lists. *)
Lemma written_record_document evs :
  length (shell_pids_of evs) = length (command_pids_of evs) →
  written_record evs
  = Doc (record_document (shell_pids_of evs) (command_pids_of evs)).
Proof.
  unfold written_record, record_document, pid_record.
  by destruct (shell_pids_of evs).
Qed.

(** [_start_job] on a JobSpec, when it returns: the instances are those
    asked for, and the record of their pids was written last. *)
Lemma start_job_spec_ok name components (s s' : State W) :
  _start_job (job_spec name components) s = (Ok tt, s') →
  ∃ evs,
    os_only evs
    ∧ (spawned evs).*1 = instances (job_local_path (JStr name)) components
    ∧ (resolved evs).*1 = shell_pids_of evs
    ∧ length (shell_pids_of evs) = total_instances components
    ∧ length (command_pids_of evs) = total_instances components
    ∧ trace s' = trace s ++ evs ++ [EHSetRunning name (written_record evs)]
    ∧ redis s' = apply_event (EHSetRunning name (written_record evs)) (redis s)
    ∧ _shutdown_count s' = _shutdown_count s.
Proof.
  intros Es. pose proof (start_job_shape _ _ _ _ Es) as [Hc _].
  rewrite start_job_spec_run in Es. apply bind_ok_inv in Es as (pid_dict & s1 & E & Ew).
  change (@nil (string * list Z)) with (pid_record [] []) in E.
  destruct (launch_components (job_spec name components) (JStr name) components
              eq_refl [] [] s pid_dict s1 eq_refl E) as (evs & -> & L).
  injection Ew as <-. exists evs.
  destruct (launched_lengths _ _ _ _ L) as [Hl1 Hl2].
  rewrite length_instances in Hl1, Hl2.
  destruct L as (Et & Er & Hq & Hs & Hr). cbn.
  rewrite Et, Er, <- app_assoc. repeat split; done.
Qed.

(** C6. An admitted JobSpec - one on which [_start_job] returns, so that
    the scheduler goes on to remove its ticket - has had started,
    component after component, the instances 0 to [num - 1] of each, and
    one command pid resolved per shell; then, as the one write to the
    store and the last thing done, the record with the shell pids and the
    command pids, in that order, was put under the job's name.  (When the
    operating system refuses a directory, a log file or a shell,
    [_start_job] raises: the job is not admitted, and no record is
    written.) *)
Theorem start_job_launches_then_records
    (s s' : State W) (name : string) (components : list (string * (Z * string))) :
  _start_job (job_spec name components) s = (Ok tt, s') →
  ∃ evs,
    let record :=
      Doc (record_document (shell_pids_of evs) (command_pids_of evs)) in
    trace s' = trace s ++ evs ++ [EHSetRunning name record]
    ∧ os_only evs
    ∧ (spawned evs).*1 = instances (job_local_path (JStr name)) components
    ∧ (resolved evs).*1 = shell_pids_of evs
    ∧ length (shell_pids_of evs) = total_instances components
    ∧ length (command_pids_of evs) = total_instances components
    ∧ redis s' = apply_event (EHSetRunning name record) (redis s)
    ∧ dict_get name (RUNNING_JOB (redis s')) = Some record.
Proof.
  intros Es. destruct (start_job_spec_ok name components s s' Es)
    as (evs & Hq & Hs & Hc & Hl1 & Hl2 & Et & Er & _).
  exists evs. cbn zeta.
  rewrite <- written_record_document by congruence.
  repeat split; try done.
  rewrite Er. apply dict_get_hset.
Qed.
End scheduler.

(** * The kill processor *)

Section killer.
Context `{OS W}.
Import KilledJobAgent.

Lemma check_kill_ticket_run s :
  _check_kill_ticket s = for_each (KILLED_JOB_TICKETS (redis s)) handle s.
Proof. reflexivity. Qed.

#[local] Instance only_drops_preorder : PreOrder (@only_drops W).
Proof.
  split.
  - intros s. repeat split; [done | done |]. exists []. by rewrite app_nil_r.
  - intros s1 s2 s3 (Hp1 & Hk1 & evs1 & Et1 & Hs1) (Hp2 & Hk2 & evs2 & Et2 & Hs2).
    repeat split; [by etrans | by etrans |].
    exists (evs1 ++ evs2). split; [by rewrite Et2, Et1, app_assoc|].
    unfold spawned in *. by rewrite omap_app, Hs1, Hs2.
Qed.

Lemma lrem_subseteq value l : lrem value l ⊆ l.
Proof. intros x Hx. by apply list_elem_of_filter in Hx as [_ ?]. Qed.

Lemma not_elem_of_lrem value l : value ∉ lrem value l.
Proof. intros Hx. by apply list_elem_of_filter in Hx as [? _]. Qed.






(** A ticket for a job that is not running. *)
Lemma handle_not_running job_name s :
  hexists job_name (RUNNING_JOB (redis s)) = false →
  handle job_name s = (Ok tt, ticket_dropped job_name s).
Proof.
  intros Hno. unfold handle. autounfold with agents. run_m. rewrite Hno. cbn.
  unfold ticket_dropped. by rewrite <- app_assoc.
Qed.

(** ** A ticket for a running job *)

(** The record [_start_job] writes is a dict; iterating over it yields its
    keys, and [os.getpgid] does not take a string. *)
Lemma stop_job_on_record job_name shell_pids command_pids (s : State W) :
  shell_pids ≠ [] →
  _stop_job job_name (json_of_pid_dict (pid_record shell_pids command_pids)) s
  = (Raise TypeError, s).
Proof. intros Hne. by destruct shell_pids. Qed.

Lemma handle_running job_name shell_pids command_pids (s : State W) :
  shell_pids ≠ [] →
  dict_get job_name (RUNNING_JOB (redis s))
  = Some (json_dumps (json_of_pid_dict (pid_record shell_pids command_pids))) →
  handle job_name s = (Raise TypeError, s).
Proof.
  intros Hne Hrec. unfold handle, Connection.hexists_running, Connection.hget_running.
  unfold hexists. run_m. rewrite Hrec.
  rewrite bool_decide_eq_true_2 by by eexists.
  cbn. rewrite Hrec. by destruct shell_pids.
Qed.
End killer.

(** * Failures *)

Section failures.
Context `{OS W}.

Lemma examine_malformed pending_job raw (s : State W) :
  JOB_DETAILS (redis s) !! pending_job = Some (Malformed raw) →
  PendingJobAgent.examine pending_job s = (Raise JSONDecodeError, s).
Proof. intros Hbad. rewrite examine_run, Hbad. reflexivity. Qed.

Lemma handle_malformed job_name raw (s : State W) :
  dict_get job_name (RUNNING_JOB (redis s)) = Some (Malformed raw) →
  KilledJobAgent.handle job_name s = (Raise JSONDecodeError, s).
Proof.
  intros Hbad. unfold KilledJobAgent.handle.
  unfold Connection.hexists_running, Connection.hget_running, hexists.
  run_m. rewrite Hbad, bool_decide_eq_true_2 by by eexists.
  cbn. by rewrite Hbad.
Qed.

Lemma for_each_raises {A} (body : A → M W unit) before bad after s s1 s2 x :
  for_each before body s = (Ok tt, s1) →
  body bad s1 = (Raise x, s2) →
  for_each (before ++ bad :: after) body s = (Raise x, s2).
Proof. intros E1 E2. by rewrite for_each_app, E1, for_each_cons, E2. Qed.

(** C8, as the code has it.  Nothing catches an exception: a cycle of the
    scheduler or of the kill processor that comes to a record that does
    not parse stops there with [JSONDecodeError], in the state the tickets
    before it left; the bad ticket and the tickets after it are not
    handled, and the agent's loop ends with the same exception. *)
Theorem malformed_record_aborts_cycle
    (s s1 : State W) (before after : list string) (bad raw : string)
    (k k1 : State W) (kbefore kafter : list string) (kbad kraw : string) :
  PENDING_JOB_TICKETS (redis s) = before ++ bad :: after →
  for_each before PendingJobAgent.examine s = (Ok tt, s1) →
  JOB_DETAILS (redis s1) !! bad = Some (Malformed raw) →
  KILLED_JOB_TICKETS (redis k) = kbefore ++ kbad :: kafter →
  for_each kbefore KilledJobAgent.handle k = (Ok tt, k1) →
  dict_get kbad (RUNNING_JOB (redis k1)) = Some (Malformed kraw) →
  PendingJobAgent._check_pending_ticket s = (Raise JSONDecodeError, s1)
  ∧ KilledJobAgent._check_kill_ticket k = (Raise JSONDecodeError, k1)
  ∧ ∀ e schedule,
      PendingJobAgent.run (e :: schedule) s = (Raise JSONDecodeError, s1)
      ∧ KilledJobAgent.run (e :: schedule) k = (Raise JSONDecodeError, k1).
Proof.
  intros Hp Hs Hbad Hk Hks Hkbad.
  assert (PendingJobAgent._check_pending_ticket s = (Raise JSONDecodeError, s1)) as E1.
  { rewrite check_pending_ticket_run, Hp.
    eapply for_each_raises; [exact Hs | by eapply examine_malformed]. }
  assert (KilledJobAgent._check_kill_ticket k = (Raise JSONDecodeError, k1)) as E2.
  { rewrite check_kill_ticket_run, Hk.
    eapply for_each_raises; [exact Hks | by eapply handle_malformed]. }
  repeat split; try done.
  - unfold PendingJobAgent.run. rewrite for_each_cons.
    by rewrite (bind_raise _ _ _ _ _ E1).
  - unfold KilledJobAgent.run. rewrite for_each_cons.
    by rewrite (bind_raise _ _ _ _ _ E2).
Qed.
End failures.

(** * The agents on the examples *)

Example job1_record :
  RUNNING_JOB (redis job1_running)
  = [("job1", Doc (JDict [("shell_pids", JList [JInt 100; JInt 102; JInt 104]);
                          ("command_pids", JList [JInt 101; JInt 103; JInt 105])]))].
Proof. reflexivity. Qed.

(** Two jobs under a cap of one: the first is admitted, the second keeps its
    ticket. *)
Example one_of_two_started :
  hkeys (RUNNING_JOB (redis job1_of_two_running)) = ["job1"]
  ∧ PENDING_JOB_TICKETS (redis job1_of_two_running) = ["job2"].
Proof. split; reflexivity. Qed.

Lemma running_jobs_within_parallel_level_witness :
  hlen (RUNNING_JOB (redis (for_each ["job1"] PendingJobAgent.examine (boot store2)).2)) ≤ 1
  ∧ hlen (RUNNING_JOB (redis (PendingJobAgent._check_pending_ticket (boot store2)).2)) ≤ 1.
Proof.
  apply (running_jobs_within_parallel_level (boot store2) 1 ["job1"] ["job2"]).
  - reflexivity.
  - vm_compute. discriminate.
  - reflexivity.
Defined.

Lemma cap_reached_ticket_stays_witness :
  PendingJobAgent.examine "job2" job1_of_two_running = (Ok tt, job1_of_two_running)
  ∧ for_each ["job2"; "job2"] PendingJobAgent.examine job1_of_two_running
    = for_each ["job2"] PendingJobAgent.examine job1_of_two_running
  ∧ (for_each ["job2"] PendingJobAgent.examine job1_of_two_running).2 = job1_of_two_running.
Proof.
  apply (cap_reached_ticket_stays job1_of_two_running 1 "job2" job2 ["job2"]).
  - reflexivity.
  - vm_compute. discriminate.
  - reflexivity.
Defined.

Lemma admission_never_loses_job_witness :
  ∃ evs, trace (PendingJobAgent._check_pending_ticket (boot store1)).2 = [] ++ evs
         ∧ redis (PendingJobAgent._check_pending_ticket (boot store1)).2 = replay evs store1
         ∧ Forall (present "job1") (store1 :: visited evs store1)
         ∧ written_before_removed "job1" evs.
Proof.
  apply (admission_never_loses_job (boot store1) "job1").
  - intros j name Hj Hn. vm_compute in Hj. injection Hj as <-.
    vm_compute in Hn. by injection Hn as <-.
  - left. vm_compute. left.
Defined.

Example job1_start_trace :
  trace (PendingJobAgent._start_job job1 (boot store1)).2
  = [EMakedirs "~/.maro/clusters/process/job1";
     EOpen "~/.maro/clusters/process/job1/driver_0.log";
     EPopen ["sleep 1"] "~/.maro/clusters/process/job1/driver_0.log" 100;
     EGetChildPid 100 101;
     EOpen "~/.maro/clusters/process/job1/worker_0.log";
     EPopen ["sleep 1"] "~/.maro/clusters/process/job1/worker_0.log" 102;
     EGetChildPid 102 103;
     EOpen "~/.maro/clusters/process/job1/worker_1.log";
     EPopen ["sleep 1"] "~/.maro/clusters/process/job1/worker_1.log" 104;
     EGetChildPid 104 105;
     EHSetRunning "job1" (running_record [100; 102; 104] [101; 103; 105])].
Proof. reflexivity. Qed.

Lemma start_job_launches_then_records_witness :
  ∃ evs,
    let record :=
      Doc (record_document (shell_pids_of evs) (command_pids_of evs)) in
    trace job1_started = trace (boot store1) ++ evs ++ [EHSetRunning "job1" record]
    ∧ os_only evs
    ∧ (spawned evs).*1
      = instances (job_local_path (JStr "job1"))
                  [("driver", (1, "sleep 1")); ("worker", (2, "sleep 1"))]
    ∧ (resolved evs).*1 = shell_pids_of evs
    ∧ length (shell_pids_of evs) = 3%nat
    ∧ length (command_pids_of evs) = 3%nat
    ∧ redis job1_started = apply_event (EHSetRunning "job1" record) store1
    ∧ dict_get "job1" (RUNNING_JOB (redis job1_started)) = Some record.
Proof.
  apply (start_job_launches_then_records (boot store1) job1_started "job1"
           [("driver", (1, "sleep 1")); ("worker", (2, "sleep 1"))]).
  vm_compute. reflexivity.
Defined.

(** A name no directory can bear: the scheduler raises at the first ticket
    with nothing started and nothing written, and does not come to the
    second. *)
Example long_name_is_refused :
  PendingJobAgent._check_pending_ticket (boot store_long)
  = (Raise OSError, boot store_long).
Proof. vm_compute. reflexivity. Qed.

Lemma malformed_record_aborts_cycle_witness :
  PendingJobAgent._check_pending_ticket (boot store_bad)
  = (Raise JSONDecodeError, boot store_bad)
  ∧ KilledJobAgent._check_kill_ticket (boot store_kill_bad)
    = (Raise JSONDecodeError, boot store_kill_bad).
Proof.
  destruct (malformed_record_aborts_cycle
              (boot store_bad) (boot store_bad) [] ["job1"] "bad" "{"
              (boot store_kill_bad) (boot store_kill_bad) [] ["job1"] "bad" "{")
    as (Hs & Hk & _).
  - reflexivity.
  - reflexivity.
  - reflexivity.
  - reflexivity.
  - reflexivity.
  - reflexivity.
  - split; [exact Hs | exact Hk].
Defined.

(** C1. With [job1] running and a kill ticket for it, the kill processor
    raises [TypeError] at the first key of the record: no signal is sent,
    the record and the ticket stay. *)
Theorem kill_ticket_for_running_job_raises :
  let s := with_kill_ticket "job1" job1_running in
  KilledJobAgent._check_kill_ticket s = (Raise TypeError, s)
  ∧ hexists "job1" (RUNNING_JOB (redis s)) = true
  ∧ KILLED_JOB_TICKETS (redis s) = ["job1"].
Proof. vm_compute. repeat split. Qed.

(** C3. A job without instances is recorded as [{}]; the tracker's liveness
    pass raises [KeyError] on it and the record stays. *)
Theorem empty_record_stops_tracker :
  RUNNING_JOB (redis job0_running) = [("job0", Doc (JDict []))]
  ∧ JobTrackingAgent._check_job_status job0_running
    = (Raise (KeyError "command_pids"), job0_running).
Proof. vm_compute. repeat split. Qed.

(** C8 fails as stated: with the details of the first ticket unreadable, the
    second ticket - which the cap would let in - is not admitted. *)
Lemma bad_ticket_not_skipped : ¬ bad_ticket_skipped (boot store_bad) [] "bad" ["job1"].
Proof.
  intros Hskip. specialize (Hskip eq_refl (ex_intro _ "{" eq_refl)).
  vm_compute in Hskip. discriminate Hskip.
Qed.

(** * More on the scheduler *)

(** Reading a field of the store after a write. *)
Ltac store_cbn :=
  cbn [redis ticket_removed ticket_dropped apply_event RUNNING_JOB PENDING_JOB_TICKETS
       KILLED_JOB_TICKETS JOB_DETAILS SETTING] in *.

Section scheduler_more.
Context `{OS W}.
Import PendingJobAgent.

(** A ticket for a JobSpec, examined with room under the cap, when the
    launch returns. *)
Lemma examine_spec name components cap (s s2 : State W) :
  JOB_DETAILS (redis s) !! name = Some (Doc (job_spec name components)) →
  setting_is "parallel_level" cap (redis s) →
  cap > hlen (RUNNING_JOB (redis s)) →
  examine name s = (Ok tt, s2) →
  ∃ evs s1,
    s2 = ticket_removed name s1
    ∧ os_only evs
    ∧ (spawned evs).*1 = instances (job_local_path (JStr name)) components
    ∧ (resolved evs).*1 = shell_pids_of evs
    ∧ length (shell_pids_of evs) = total_instances components
    ∧ length (command_pids_of evs) = total_instances components
    ∧ trace s1 = trace s ++ evs ++ [EHSetRunning name (written_record evs)]
    ∧ redis s1 = apply_event (EHSetRunning name (written_record evs)) (redis s)
    ∧ _shutdown_count s1 = _shutdown_count s.
Proof.
  intros Hd Hs Hroom. rewrite examine_run, Hd. unfold setting_is in Hs.
  cbn [json_loads]. rewrite Hs. cbn [py_int].
  rewrite bool_decide_eq_true_2 by done.
  destruct (_start_job _ s) as [[[]|x] s1] eqn:Es; [|discriminate].
  intros [= <-].
  destruct (start_job_spec_ok name components s s1 Es) as (evs & Hrest).
  by exists evs, s1.
Qed.

Lemma os_only_recorded evs : os_only evs → recorded evs = [].
Proof.
  induction 1 as [|e evs He _ IH]; [reflexivity|].
  unfold recorded in *. cbn. by destruct e.
Qed.

Lemma recorded_app evs1 evs2 : recorded (evs1 ++ evs2) = recorded evs1 ++ recorded evs2.
Proof. unfold recorded. apply omap_app. Qed.

(** A ticket whose details parse, examined with the cap reached. *)
Lemma examine_no_room name j cap (s : State W) :
  JOB_DETAILS (redis s) !! name = Some (Doc j) →
  setting_is "parallel_level" cap (redis s) →
  cap ≤ hlen (RUNNING_JOB (redis s)) →
  examine name s = (Ok tt, s).
Proof.
  intros Hd Hs Hfull. rewrite examine_run, Hd. unfold setting_is in Hs.
  cbn [json_loads]. rewrite Hs. cbn [py_int].
  by rewrite bool_decide_eq_false_2 by lia.
Qed.

Lemma hkeys_hset_fresh {V} k (v : V) h :
  k ∉ hkeys h → hkeys (hset k v h) = hkeys h ++ [k].
Proof.
  unfold hkeys. induction h as [|[k' v'] h IH]; intros Hk; [reflexivity|].
  cbn in *. apply not_elem_of_cons in Hk as [Hne Hk].
  rewrite decide_False by done. cbn. by rewrite IH.
Qed.

Lemma hkeys_hset_known {V} k (v : V) h :
  k ∈ hkeys h → hkeys (hset k v h) = hkeys h.
Proof.
  unfold hkeys. induction h as [|[k' v'] h IH]; intros Hk; [by apply elem_of_nil in Hk|].
  cbn in *. destruct (decide (k' = k)) as [->|Hne]; [reflexivity|].
  cbn. apply elem_of_cons in Hk as [->|Hk]; [done|]. by rewrite IH.
Qed.

Lemma hlen_hkeys {V} (h : list (string * V)) : hlen h = Z.of_nat (length (hkeys h)).
Proof. unfold hlen, hkeys. by rewrite length_fmap. Qed.

Lemma lrem_fresh value l : value ∉ l → lrem value l = l.
Proof.
  unfold lrem. induction l as [|x l IH]; intros Hv; [reflexivity|].
  apply not_elem_of_cons in Hv as [Hne Hv].
  rewrite filter_cons_True by done. by rewrite IH.
Qed.

Lemma lrem_head value l : value ∉ l → lrem value (value :: l) = l.
Proof.
  intros Hv. unfold lrem. rewrite filter_cons_False by (intros Hne; by apply Hne).
  by apply lrem_fresh.
Qed.

Lemma for_each_no_room tickets cap (s : State W) :
  setting_is "parallel_level" cap (redis s) →
  cap ≤ hlen (RUNNING_JOB (redis s)) →
  (∀ t, t ∈ tickets → ∃ j, JOB_DETAILS (redis s) !! t = Some (Doc j)) →
  for_each tickets examine s = (Ok tt, s).
Proof.
  intros Hs Hfull. induction tickets as [|t tickets IH]; intros Hd; [reflexivity|].
  destruct (Hd t) as [j Hj]; [by left|].
  rewrite for_each_cons, (examine_no_room t j cap s Hj Hs Hfull).
  apply IH. intros t' Ht'. apply Hd. by right.
Qed.

Lemma admission_in_order cap (jobs : list (string * list (string * (Z * string)))) :
  ∀ s s' : State W,
  PENDING_JOB_TICKETS (redis s) = jobs.*1 →
  NoDup jobs.*1 →
  (∀ job, job ∈ jobs →
          JOB_DETAILS (redis s) !! job.1 = Some (Doc (job_spec job.1 job.2))) →
  (∀ t, t ∈ jobs.*1 → t ∉ hkeys (RUNNING_JOB (redis s))) →
  setting_is "parallel_level" cap (redis s) →
  for_each jobs.*1 examine s = (Ok tt, s') →
  ∃ evs,
    trace s' = trace s ++ evs
    ∧ length (spawned evs)
      = sum_list (total_instances <$>
                    (take (Z.to_nat (cap - hlen (RUNNING_JOB (redis s)))) jobs).*2)
    ∧ recorded evs = take (Z.to_nat (cap - hlen (RUNNING_JOB (redis s)))) jobs.*1
    ∧ hkeys (RUNNING_JOB (redis s'))
      = hkeys (RUNNING_JOB (redis s))
        ++ take (Z.to_nat (cap - hlen (RUNNING_JOB (redis s)))) jobs.*1
    ∧ PENDING_JOB_TICKETS (redis s')
      = drop (Z.to_nat (cap - hlen (RUNNING_JOB (redis s)))) jobs.*1
    ∧ KILLED_JOB_TICKETS (redis s') = KILLED_JOB_TICKETS (redis s)
    ∧ JOB_DETAILS (redis s') = JOB_DETAILS (redis s)
    ∧ SETTING (redis s') = SETTING (redis s).
Proof.
  induction jobs as [|[t components] jobs IH]; intros s s' Hp Hnd Hd Hfresh Hs E.
  - injection E as <-. exists []. cbn. rewrite app_nil_r, !take_nil, drop_nil, app_nil_r.
    repeat split; done.
  - cbn [fmap list_fmap fst] in *. apply NoDup_cons in Hnd as [Ht Hnd].
    destruct (decide (cap > hlen (RUNNING_JOB (redis s)))) as [Hroom|Hfull].
    + rewrite for_each_cons in E.
      destruct (examine t s) as [[[]|x] s2] eqn:E1; [|discriminate].
      destruct (examine_spec t components cap s s2) as
        (evs1 & s1 & -> & Hq & Hsp & _ & _ & _ & Et1 & Er1 & _);
        [apply (Hd (t, components)); by left | done | done | done |].
      assert (t ∉ hkeys (RUNNING_JOB (redis s))) as Htf by (apply Hfresh; by left).
      assert (hlen (RUNNING_JOB (redis (ticket_removed t s1)))
              = hlen (RUNNING_JOB (redis s)) + 1) as Hlen.
      { store_cbn. rewrite Er1. store_cbn. rewrite !hlen_hkeys, hkeys_hset_fresh by done.
        rewrite length_app. cbn. lia. }
      destruct (IH (ticket_removed t s1) s') as
        (evs2 & Et2 & Hn2 & Hrec2 & Hk2 & Hp2 & Hkill & Hdet & Hset).
      * store_cbn. rewrite Er1. store_cbn. rewrite Hp. by apply lrem_head.
      * done.
      * intros job Hjob. store_cbn. rewrite Er1. store_cbn. apply Hd. by right.
      * intros t' Ht'. store_cbn. rewrite Er1. store_cbn. rewrite hkeys_hset_fresh by done.
        intros Hin. apply elem_of_app in Hin as [Hin|Hin].
        -- revert Hin. apply Hfresh. by right.
        -- apply list_elem_of_singleton in Hin. by subst t'.
      * unfold setting_is. store_cbn. by rewrite Er1.
      * exact E.
      * rewrite Hlen in *.
        replace (Z.to_nat (cap - hlen (RUNNING_JOB (redis s))))
          with (S (Z.to_nat (cap - (hlen (RUNNING_JOB (redis s)) + 1)))) by lia.
        exists (evs1 ++ [EHSetRunning t (written_record evs1); ELRemPending t] ++ evs2).
        repeat split.
        -- rewrite Et2. cbn [trace ticket_removed]. rewrite Et1, <- !app_assoc. reflexivity.
        -- unfold spawned in *. rewrite !omap_app, !length_app, Hn2. cbn.
           apply (f_equal length) in Hsp.
           rewrite length_fmap, length_instances in Hsp. by rewrite Hsp.
        -- rewrite !recorded_app, (os_only_recorded evs1), Hrec2 by done. reflexivity.
        -- rewrite Hk2. store_cbn. rewrite Er1. store_cbn.
           rewrite hkeys_hset_fresh by done. by rewrite <- app_assoc.
        -- exact Hp2.
        -- rewrite Hkill. store_cbn. by rewrite Er1.
        -- rewrite Hdet. store_cbn. by rewrite Er1.
        -- rewrite Hset. store_cbn. by rewrite Er1.
    + replace (Z.to_nat (cap - hlen (RUNNING_JOB (redis s)))) with 0%nat by lia.
      rewrite (for_each_no_room (t :: jobs.*1) cap) in E; [|done|lia|].
      * injection E as <-. exists []. rewrite app_nil_r, !take_0, drop_0, app_nil_r.
        repeat split; done.
      * intros t' Ht'. apply elem_of_cons in Ht' as [->|Ht'].
        -- eexists. apply (Hd (t, components)). by left.
        -- apply list_elem_of_fmap in Ht' as ([t'' c''] & -> & Hin).
           eexists. apply (Hd (t'', c'')). by right.
Qed.

(** X1. First come, first served, up to the cap.  With the pending list
    holding distinct jobs that are not running, each with its JobSpec
    stored under its name, a cycle that returns has started as many of
    them as there was room for under [parallel_level], from the head of
    the list and in its order: their records were written in that order,
    one shell was started per instance of theirs, the running hash holds
    them besides what it held, and the others keep their tickets, in
    order.  (A cycle in which the operating system refuses a launch
    raises; X2 says what it leaves.) *)
Theorem admission_first_come_first_served
    (s s' : State W) (jobs : list (string * list (string * (Z * string)))) (cap : Z) :
  PENDING_JOB_TICKETS (redis s) = jobs.*1 →
  NoDup jobs.*1 →
  (∀ job, job ∈ jobs →
          JOB_DETAILS (redis s) !! job.1 = Some (Doc (job_spec job.1 job.2))) →
  (∀ t, t ∈ jobs.*1 → t ∉ hkeys (RUNNING_JOB (redis s))) →
  setting_is "parallel_level" cap (redis s) →
  _check_pending_ticket s = (Ok tt, s') →
  ∃ evs,
    trace s' = trace s ++ evs
    ∧ recorded evs = take (Z.to_nat (cap - hlen (RUNNING_JOB (redis s)))) jobs.*1
    ∧ length (spawned evs)
      = sum_list (total_instances <$>
                    (take (Z.to_nat (cap - hlen (RUNNING_JOB (redis s)))) jobs).*2)
    ∧ hkeys (RUNNING_JOB (redis s'))
      ≡ₚ hkeys (RUNNING_JOB (redis s))
         ++ take (Z.to_nat (cap - hlen (RUNNING_JOB (redis s)))) jobs.*1
    ∧ PENDING_JOB_TICKETS (redis s')
      = drop (Z.to_nat (cap - hlen (RUNNING_JOB (redis s)))) jobs.*1.
Proof.
  intros Hp Hnd Hd Hfresh Hs E. rewrite check_pending_ticket_run, Hp in E.
  destruct (admission_in_order cap jobs s s' Hp Hnd Hd Hfresh Hs E)
    as (evs & Et & Hn & Hrec & Hk & Hp' & _).
  exists evs. rewrite Hk. done.
Qed.

(** ** When the scheduler raises *)

Lemma for_each_raise_inv {A} (body : A → M W unit) l : ∀ s x s',
  for_each l body s = (Raise x, s') →
  ∃ before bad after s1,
    l = before ++ bad :: after
    ∧ for_each before body s = (Ok tt, s1)
    ∧ body bad s1 = (Raise x, s').
Proof.
  induction l as [|a l IH]; intros s x s' E; [discriminate E|].
  rewrite for_each_cons in E. destruct (body a s) as [[[]|y] s1] eqn:Ea.
  - destruct (IH _ _ _ E) as (before & bad & after & s2 & -> & Eb & Ebad).
    exists (a :: before), bad, after, s2. repeat split; [|done].
    by rewrite for_each_cons, Ea.
  - injection E as <- <-. exists [], a, l, s. by repeat split.
Qed.

Lemma examine_raise_inv pending_job (s : State W) x s' :
  examine pending_job s = (Raise x, s') →
  redis s' = redis s
  ∧ _shutdown_count s' = _shutdown_count s
  ∧ ∃ evs, trace s' = trace s ++ evs ∧ os_only evs.
Proof.
  rewrite examine_run. intros E.
  assert (redis s = redis s ∧ _shutdown_count s = _shutdown_count s
          ∧ ∃ evs, trace s = trace s ++ evs ∧ os_only evs) as Hsame.
  { repeat split. exists []. split; [by rewrite app_nil_r | constructor]. }
  destruct (json_loads _); [by injection E as <- <-|].
  destruct (py_int _); [by injection E as <- <-|].
  case_bool_decide; [|discriminate E].
  destruct (_start_job j s) as [[[]|y] s1] eqn:Es; [discriminate E|].
  injection E as <- <-.
  apply start_job_shape in Es as (Hc & evs & Hq & [(y' & _ & Et & Er)|Hok]).
  - repeat split; [done | done |]. by exists evs.
  - by destruct Hok as (? & ? & ? & ? & _).
Qed.

(** X2. A scheduler cycle that raises does so at one ticket, after having
    handled the tickets before it; handling the failing ticket has changed
    nothing in the store - no record, no ticket removed - but may have
    started processes. *)
Theorem scheduler_failure_writes_nothing (s s' : State W) (x : exn) :
  _check_pending_ticket s = (Raise x, s') →
  ∃ before bad after s1 evs,
    PENDING_JOB_TICKETS (redis s) = before ++ bad :: after
    ∧ for_each before examine s = (Ok tt, s1)
    ∧ examine bad s1 = (Raise x, s')
    ∧ redis s' = redis s1
    ∧ trace s' = trace s1 ++ evs
    ∧ os_only evs.
Proof.
  rewrite check_pending_ticket_run. intros E.
  apply for_each_raise_inv in E as (before & bad & after & s1 & Hl & Eb & Ebad).
  destruct (examine_raise_inv _ _ _ _ Ebad) as (Er & _ & evs & Et & Hq).
  by exists before, bad, after, s1, evs.
Qed.

Lemma raises_after_unchanged {A B} (m : M W A) (k : A → M W B) :
  stable eq m →
  (∀ a s, ∃ x, k a s = (Raise x, s)) →
  ∀ s, ∃ x, (m ≫= k) s = (Raise x, s).
Proof.
  intros Hm Hk s. rewrite bind_run. destruct (m s) as [[a|x] s1] eqn:E.
  - rewrite <- (Hm _ _ _ E). apply Hk.
  - rewrite <- (Hm _ _ _ E). by exists x.
Qed.

Lemma launch_nameless d component_type command num pid_dict (s : State W) :
  dict_get "name" d = None →
  launch (JDict d) component_type command num pid_dict s
  = (Raise (KeyError "name"), s).
Proof. intros Hn. unfold launch, subscript. run_m. by rewrite Hn. Qed.

(** X3. A specification without a name is never started: whatever else it
    holds, [_start_job] raises with nothing launched and nothing
    written. *)
Theorem nameless_job_is_not_started (job_details : json) (s : State W) :
  json_get "name" job_details = None →
  ∃ x, _start_job job_details s = (Raise x, s).
Proof.
  intros Hn. unfold _start_job.
  destruct job_details as [| | | | |d]; try (eexists; reflexivity).
  cbn in Hn. revert s.
  apply raises_after_unchanged; [stable_prim|]. intros components.
  apply raises_after_unchanged; [stable_prim|]. intros comps.
  apply raises_after_unchanged.
  - stable_prim. unfold launch_component. destruct x as [c info].
    stable_prim. intros s0 r s1. rewrite launch_nameless by done.
    by intros [= <- <-].
  - intros pid_dict s. exists (KeyError "name"). unfold subscript. run_m.
    by rewrite Hn.
Qed.

(** ** What the scheduler leaves alone *)

#[local] Instance scheduler_frame_preorder : PreOrder (@scheduler_frame W).
Proof.
  split.
  - intros s. repeat split; try done. exists []. by rewrite app_nil_r.
  - intros s1 s2 s3 (Hk1 & Hd1 & Hs1 & Hc1 & Hp1 & Hr1 & evs1 & Et1 & He1)
                    (Hk2 & Hd2 & Hs2 & Hc2 & Hp2 & Hr2 & evs2 & Et2 & He2).
    repeat split; try congruence; try (by etrans).
    exists (evs1 ++ evs2). split; [by rewrite Et2, Et1, app_assoc | by apply Forall_app].
Qed.

Lemma scheduler_frame_emit e (s : State W) :
  scheduler_event e = true →
  scheduler_frame s (mkState (redis s) (world s) (trace s ++ [e]) (_shutdown_count s)).
Proof. intros He. repeat split; try done. exists [e]. split; [done | by constructor]. Qed.

Lemma scheduler_frame_world w (s : State W) : scheduler_frame s (set_world w s).
Proof. repeat split; try done. exists []. by rewrite app_nil_r. Qed.

Lemma scheduler_frame_write e (s : State W) :
  scheduler_event e = true →
  scheduler_frame s (set_redis (apply_event e (redis s)) s).
Proof.
  intros He. destruct e; try discriminate He; repeat split; try done.
  all: try (exists []; by rewrite app_nil_r).
  - intros k Hk. by apply hkeys_hset_old.
  - apply lrem_subseteq.
Qed.

Lemma examine_scheduler_frame pending_job :
  stable scheduler_frame (examine pending_job).
Proof.
  unfold examine, _start_job, launch_component, launch.
  stable_prim;
    first [ reflexivity
          | apply scheduler_frame_world
          | apply scheduler_frame_emit; reflexivity
          | apply scheduler_frame_write; reflexivity ].
Qed.

(** X4. Whatever it finds, and whether it returns or raises, a scheduler
    cycle leaves the kill tickets, the job details and the settings as
    they are; it only takes tickets off the pending list and only adds
    to, or overwrites in, the running hash; it sends no signal and closes
    no process. *)
Theorem scheduler_keeps_to_its_own (s : State W) :
  let s' := (_check_pending_ticket s).2 in
  KILLED_JOB_TICKETS (redis s') = KILLED_JOB_TICKETS (redis s)
  ∧ JOB_DETAILS (redis s') = JOB_DETAILS (redis s)
  ∧ SETTING (redis s') = SETTING (redis s)
  ∧ PENDING_JOB_TICKETS (redis s') ⊆ PENDING_JOB_TICKETS (redis s)
  ∧ hkeys (RUNNING_JOB (redis s)) ⊆ hkeys (RUNNING_JOB (redis s'))
  ∧ ∃ evs, trace s' = trace s ++ evs
           ∧ Forall (λ e, scheduler_event e = true) evs.
Proof.
  cbn zeta. destruct (_check_pending_ticket s) as [r s'] eqn:E.
  rewrite check_pending_ticket_run in E.
  eapply (stable_for_each scheduler_frame) in E;
    [|intros t; apply examine_scheduler_frame].
  by destruct E as (? & ? & ? & _ & ? & ? & ?).
Qed.

(** ** No ticket, no record *)

#[local] Instance spares_preorder job : PreOrder (@spares W job).
Proof.
  split.
  - intros s. repeat split; try done. exists []. rewrite app_nil_r.
    split; [done|]. intros v Hv. by apply elem_of_nil in Hv.
  - intros s1 s2 s3 (Hd1 & Hp1 & Hg1 & evs1 & Et1 & He1)
                    (Hd2 & Hp2 & Hg2 & evs2 & Et2 & He2).
    repeat split; try congruence; try (by etrans).
    exists (evs1 ++ evs2). split; [by rewrite Et2, Et1, app_assoc|].
    intros v Hv. apply elem_of_app in Hv as [Hv|Hv]; [by eapply He1 | by eapply He2].
Qed.

Lemma dict_get_hset_ne {V} k k' (v : V) h :
  k ≠ k' → dict_get k' (hset k v h) = dict_get k' h.
Proof.
  intros Hne. induction h as [|[k0 v0] h IH]; cbn.
  - by rewrite decide_False.
  - destruct (decide (k0 = k)) as [->|Hk0]; cbn.
    + by rewrite !decide_False.
    + by rewrite IH.
Qed.

Lemma os_only_no_record job evs v : os_only evs → EHSetRunning job v ∉ evs.
Proof.
  intros Hq Hin. unfold os_only in Hq. rewrite Forall_forall in Hq.
  by apply Hq in Hin.
Qed.

Lemma examine_spares job pending_job (s : State W) r s' :
  pending_job ≠ job →
  keyed_by_name pending_job (redis s) →
  examine pending_job s = (r, s') →
  spares job s s'.
Proof.
  intros Hne Hk. rewrite examine_run.
  destruct (JOB_DETAILS (redis s) !! pending_job) as [[j|raw]|] eqn:Ej;
    cbn [json_loads]; try (intros [= <- <-]; reflexivity).
  destruct (py_int _); [intros [= <- <-]; reflexivity|].
  case_bool_decide; [|intros [= <- <-]; reflexivity].
  destruct (_start_job j s) as [r1 s1] eqn:Es.
  apply start_job_shape in Es as (_ & evs & Hq & Hend).
  destruct Hend as [(x & -> & Et & Er)|(name & field & v & -> & Hn & Hf & Et & Er)];
    intros [= <- <-].
  - repeat split; try (by rewrite Er). exists evs. split; [done|].
    intros v. by apply os_only_no_record.
  - specialize (Hk j name Ej Hn). subst name. injection Hf as <-.
    repeat split; store_cbn; rewrite ?Er; store_cbn; try done.
    + apply lrem_subseteq.
    + by apply dict_get_hset_ne.
    + exists (evs ++ [EHSetRunning pending_job v; ELRemPending pending_job]).
      split; [cbn [trace ticket_removed]; rewrite Et, <- !app_assoc; reflexivity|].
      intros v' Hv. apply elem_of_app in Hv as [Hv|Hv].
      * by eapply os_only_no_record.
      * apply elem_of_cons in Hv as [Hv|Hv]; [by injection Hv|].
        by apply list_elem_of_singleton in Hv.
Qed.

Lemma for_each_spares job tickets : ∀ (s : State W) r s',
  job ∉ tickets →
  (∀ t, t ∈ tickets → keyed_by_name t (redis s)) →
  for_each tickets examine s = (r, s') →
  spares job s s'.
Proof.
  induction tickets as [|t tickets IH]; intros s r s' Hjob Hk E.
  - injection E as <- <-. reflexivity.
  - apply not_elem_of_cons in Hjob as [Hne Hjob]. rewrite for_each_cons in E.
    destruct (examine t s) as [r1 s1] eqn:E1.
    pose proof (examine_spares job t s r1 s1 (not_eq_sym Hne) (Hk t ltac:(by left)) E1)
      as Hsp.
    destruct r1 as [[]|x]; [|by injection E as <- <-].
    etrans; [exact Hsp|]. eapply IH; [done | | exact E].
    intros t' Ht'. destruct Hsp as (Hd & _). unfold keyed_by_name. rewrite Hd.
    apply Hk. by right.
Qed.

(** X5. No ticket, no record.  If a job is not in the pending list, and
    the details of the jobs that are there are stored under their own
    names, a scheduler cycle writes no record for it: its field in the
    running hash, there or not, reads after the cycle as it did before. *)
Theorem no_ticket_no_record (s : State W) (job : string) :
  job ∉ PENDING_JOB_TICKETS (redis s) →
  (∀ t, t ∈ PENDING_JOB_TICKETS (redis s) → keyed_by_name t (redis s)) →
  dict_get job (RUNNING_JOB (redis (_check_pending_ticket s).2))
  = dict_get job (RUNNING_JOB (redis s))
  ∧ ∃ evs, trace (_check_pending_ticket s).2 = trace s ++ evs
           ∧ ∀ v, EHSetRunning job v ∉ evs.
Proof.
  intros Hjob Hk. destruct (_check_pending_ticket s) as [r s'] eqn:E.
  rewrite check_pending_ticket_run in E.
  apply (for_each_spares job) in E; [|done..].
  by destruct E as (_ & _ & ? & ?).
Qed.

(** ** A ticket for a job that is already running *)

(** X6. A ticket for a job that already has a record, examined with room
    under the cap: if the launch returns, the job has been started a
    second time.  Every instance was launched again, and the new record
    has taken the place of the old one, so that the pids of the first
    launch are recorded nowhere.  The running hash holds the same jobs as
    before. *)
Theorem second_admission_replaces_record
    (s s' : State W) (name : string) (components : list (string * (Z * string)))
    (cap : Z) :
  JOB_DETAILS (redis s) !! name = Some (Doc (job_spec name components)) →
  setting_is "parallel_level" cap (redis s) →
  cap > hlen (RUNNING_JOB (redis s)) →
  name ∈ hkeys (RUNNING_JOB (redis s)) →
  examine name s = (Ok tt, s') →
  ∃ evs,
    let record :=
      Doc (record_document (shell_pids_of evs) (command_pids_of evs)) in
    trace s' = trace s ++ evs ++ [EHSetRunning name record; ELRemPending name]
    ∧ os_only evs
    ∧ (spawned evs).*1 = instances (job_local_path (JStr name)) components
    ∧ dict_get name (RUNNING_JOB (redis s')) = Some record
    ∧ hkeys (RUNNING_JOB (redis s')) ≡ₚ hkeys (RUNNING_JOB (redis s)).
Proof.
  intros Hd Hs Hroom Hin E.
  destruct (examine_spec name components cap s s' Hd Hs Hroom E)
    as (evs & s1 & -> & Hq & Hsp & _ & Hl1 & Hl2 & Et & Er & _).
  exists evs. cbn zeta. rewrite <- written_record_document by congruence.
  repeat split; try done; store_cbn; rewrite ?Er; store_cbn.
  - cbn [trace ticket_removed]. rewrite Et, <- !app_assoc. reflexivity.
  - apply dict_get_hset.
  - by rewrite hkeys_hset_known.
Qed.

(** X14. The cycle settles.  On the stores of X1, a second scheduler cycle
    run straight after one that returned finds either an empty pending
    list or the cap reached, and changes nothing: no shell is started, no
    record written, no ticket removed.  Jobs left waiting are started
    only after another agent has made room. *)
Theorem second_cycle_changes_nothing
    (s s' : State W) (jobs : list (string * list (string * (Z * string)))) (cap : Z) :
  PENDING_JOB_TICKETS (redis s) = jobs.*1 →
  NoDup jobs.*1 →
  (∀ job, job ∈ jobs →
          JOB_DETAILS (redis s) !! job.1 = Some (Doc (job_spec job.1 job.2))) →
  (∀ t, t ∈ jobs.*1 → t ∉ hkeys (RUNNING_JOB (redis s))) →
  setting_is "parallel_level" cap (redis s) →
  _check_pending_ticket s = (Ok tt, s') →
  _check_pending_ticket s' = (Ok tt, s').
Proof.
  intros Hp Hnd Hd Hfresh Hs E. rewrite check_pending_ticket_run, Hp in E.
  destruct (admission_in_order cap jobs s s' Hp Hnd Hd Hfresh Hs E)
    as (evs & Et & Hn & _ & Hk & Hp' & _ & Hdet & Hset).
  rewrite check_pending_ticket_run, Hp'.
  set (free := Z.to_nat (cap - hlen (RUNNING_JOB (redis s)))) in *.
  destruct (decide (length jobs.*1 ≤ free)%nat) as [Hall|Hsome].
  - by rewrite drop_ge.
  - apply (for_each_no_room _ cap).
    + unfold setting_is in *. by rewrite Hset.
    + rewrite (hlen_hkeys (RUNNING_JOB (redis s'))), Hk, length_app,
        length_take_le by lia.
      pose proof (hlen_hkeys (RUNNING_JOB (redis s))) as Hl.
      rewrite Nat2Z.inj_add. unfold free in *. lia.
    + intros t Ht. apply subseteq_drop in Ht.
      apply list_elem_of_fmap in Ht as (job & -> & Hjob).
      rewrite Hdet. eexists. by apply Hd.
Qed.

(** ** When the launches are granted *)





End scheduler_more.

(** * More on the tracker *)

Section tracker_more.
Context `{OS W}.
Import JobTrackingAgent.

Lemma check_job_status_run (s : State W) :
  _check_job_status s = for_each (RUNNING_JOB (redis s)) check_job s.
Proof. reflexivity. Qed.

Lemma hdel_others (k : string) (l : list (string * (list Z * list Z))) :
  k ∉ l.*1 → hdel k (record_entry <$> l) = record_entry <$> l.
Proof.
  unfold hdel. induction l as [|j l IH]; intros Hk; [reflexivity|].
  rewrite !fmap_cons in *. apply not_elem_of_cons in Hk as [Hne Hk].
  rewrite filter_cons_True by (cbn; congruence). by rewrite IH.
Qed.

Lemma hdel_entry (job : string * (list Z * list Z)) kept rest :
  NoDup (kept ++ job :: rest).*1 →
  hdel job.1 (record_entry <$> (kept ++ job :: rest)) = record_entry <$> (kept ++ rest).
Proof.
  rewrite fmap_app, fmap_cons. intros Hnd.
  apply NoDup_app in Hnd as (_ & Hdisj & Hnd).
  apply NoDup_cons in Hnd as [Hrest _].
  rewrite !fmap_app, fmap_cons. unfold hdel. rewrite filter_app.
  rewrite filter_cons_False by (cbn; intros Hne; by apply Hne).
  fold (hdel job.1 (record_entry <$> kept)). fold (hdel job.1 (record_entry <$> rest)).
  rewrite !hdel_others; [done | done |].
  intros Hin. apply (Hdisj _ Hin). by left.
Qed.

Lemma alive_ext (w w' : W) (job : string * (list Z * list Z)) :
  (∀ p, p ∈ job.2.2 → pid_exists w p = pid_exists w' p) →
  alive w job = alive w' job.
Proof.
  unfold alive. induction (job.2.2) as [|p l IH]; intros Hp; [reflexivity|].
  cbn. rewrite (Hp p) by by left. rewrite IH; [done|].
  intros q Hq. apply Hp. by right.
Qed.

Lemma liveness_pass_from jobs (w0 : W) :
  closing_spares_commands jobs →
  ∀ todo kept (s : State W),
  (∀ j, j ∈ todo → j ∈ jobs) →
  NoDup (kept ++ todo).*1 →
  RUNNING_JOB (redis s) = record_entry <$> (kept ++ todo) →
  (∀ j p, j ∈ jobs → p ∈ j.2.2 → pid_exists (world s) p = pid_exists w0 p) →
  ∃ s',
    for_each (record_entry <$> todo) check_job s = (Ok tt, s')
    ∧ RUNNING_JOB (redis s')
      = record_entry <$> (kept ++ filter (λ j, alive w0 j = true) todo)
    ∧ trace s' = trace s ++ (filter (λ j, alive w0 j = false) todo ≫= reap_events).
Proof.
  intros Hclose. induction todo as [|j todo IH]; intros kept s Hin Hnd Hr Hw.
  - exists s. cbn. rewrite !app_nil_r in *. done.
  - assert (alive (world s) j = alive w0 j) as Hj.
    { apply alive_ext. intros p Hp. apply (Hw j); [apply Hin; by left | done]. }
    rewrite fmap_cons, for_each_cons. unfold record_entry at 1.
    destruct (alive w0 j) eqn:Ealive.
    + rewrite check_job_alive by exact Hj.
      destruct (IH (kept ++ [j]) s) as (s' & E & Hr' & Ht').
      * intros j' Hj'. apply Hin. by right.
      * by rewrite <- app_assoc.
      * by rewrite <- app_assoc.
      * done.
      * exists s'. split; [exact E|].
        rewrite filter_cons_True by done.
        rewrite (filter_cons_False (λ j, alive w0 j = false)) by congruence.
        split; [|exact Ht']. by rewrite Hr', <- app_assoc.
    + rewrite check_job_finished by exact Hj.
      destruct (IH kept (reaped j.1 j.2.1 s)) as (s' & E & Hr' & Ht').
      * intros j' Hj'. apply Hin. by right.
      * rewrite fmap_app in *. apply NoDup_app in Hnd as (Hk & Hdisj & Hnd).
        rewrite fmap_cons in *. apply NoDup_cons in Hnd as [Hj1 Hnd].
        apply NoDup_app. repeat split; [done | | done].
        intros x Hx Hx'. apply (Hdisj x Hx). by right.
      * cbn [reaped redis apply_event RUNNING_JOB]. rewrite Hr. by apply hdel_entry.
      * intros j' p Hj' Hp. cbn [reaped world].
        rewrite (Hclose j j' p (world s)); [by apply (Hw j') | apply Hin; by left | done | done].
      * exists s'. split; [exact E|].
        rewrite filter_cons_False by congruence.
        rewrite (filter_cons_True (λ j, alive w0 j = false)) by done.
        split; [exact Hr'|]. rewrite Ht'. cbn [reaped trace].
        rewrite <- app_assoc. reflexivity.
Qed.

(** X7. The liveness pass on a hash of records that have both lists: the
    jobs none of whose command pids exists lose their record and have
    their shells closed, in the order of the hash; the others are left as
    they are.  (Closing shells is taken not to change which command pids
    exist.) *)
Theorem liveness_pass_reaps_the_finished
    (s : State W) (jobs : list (string * (list Z * list Z))) :
  RUNNING_JOB (redis s) = record_entry <$> jobs →
  NoDup jobs.*1 →
  closing_spares_commands jobs →
  ∃ s',
    _check_job_status s = (Ok tt, s')
    ∧ RUNNING_JOB (redis s')
      = record_entry <$> filter (λ j, alive (world s) j = true) jobs
    ∧ trace s'
      = trace s ++ (filter (λ j, alive (world s) j = false) jobs ≫= reap_events).
Proof.
  intros Hr Hnd Hclose.
  destruct (liveness_pass_from jobs (world s) Hclose jobs [] s) as (s' & E & Hr' & Ht');
    try done.
  exists s'. rewrite check_job_status_run, Hr. done.
Qed.

(** ** What the tracker leaves alone *)

#[local] Instance tracker_frame_preorder : PreOrder (@tracker_frame W).
Proof.
  split.
  - intros s. repeat split; try done. exists []. by rewrite app_nil_r.
  - intros s1 s2 s3 (Hp1 & Hk1 & Hd1 & Hs1 & Hc1 & Hr1 & evs1 & Et1 & He1)
                    (Hp2 & Hk2 & Hd2 & Hs2 & Hc2 & Hr2 & evs2 & Et2 & He2).
    repeat split; try congruence; try (by etrans).
    exists (evs1 ++ evs2). split; [by rewrite Et2, Et1, app_assoc | by apply Forall_app].
Qed.

Lemma tracker_frame_emit e (s : State W) :
  tracker_event e = true →
  tracker_frame s (mkState (redis s) (world s) (trace s ++ [e]) (_shutdown_count s)).
Proof. intros He. repeat split; try done. exists [e]. split; [done | by constructor]. Qed.

Lemma tracker_frame_world w (s : State W) : tracker_frame s (set_world w s).
Proof. repeat split; try done. exists []. by rewrite app_nil_r. Qed.

Lemma tracker_frame_hdel k (s : State W) :
  tracker_frame s (set_redis (apply_event (EHDelRunning k) (redis s)) s).
Proof.
  repeat split; try done.
  - intros x Hx. by apply list_elem_of_filter in Hx as [_ ?].
  - exists []. by rewrite app_nil_r.
Qed.

(** X8. Whatever the running hash holds, and whether the pass returns or
    raises, the liveness pass leaves both ticket lists, the job details,
    the settings and the idle counter as they are; it only deletes
    records, and all it does to processes is close pids, never
    recursively. *)
Theorem liveness_pass_keeps_to_its_own (s : State W) :
  let s' := (_check_job_status s).2 in
  PENDING_JOB_TICKETS (redis s') = PENDING_JOB_TICKETS (redis s)
  ∧ KILLED_JOB_TICKETS (redis s') = KILLED_JOB_TICKETS (redis s)
  ∧ JOB_DETAILS (redis s') = JOB_DETAILS (redis s)
  ∧ SETTING (redis s') = SETTING (redis s)
  ∧ _shutdown_count s' = _shutdown_count s
  ∧ RUNNING_JOB (redis s') ⊆ RUNNING_JOB (redis s)
  ∧ ∃ evs, trace s' = trace s ++ evs ∧ Forall (λ e, tracker_event e = true) evs.
Proof.
  cbn zeta. destruct (_check_job_status s) as [r s'] eqn:E.
  assert (stable tracker_frame _check_job_status) as Hst.
  { unfold _check_job_status, check_job.
    stable_prim;
      first [ reflexivity
            | apply tracker_frame_world
            | apply tracker_frame_hdel
            | apply tracker_frame_emit; reflexivity ]. }
  exact (Hst _ _ _ E).
Qed.
End tracker_more.

(** * More on the kill processor *)

Section killer_more.
Context `{OS W}.
Import KilledJobAgent.

#[local] Existing Instance launches_preorder.

Lemma hexists_hkeys {V} k (h : list (string * V)) :
  hexists k h = true ↔ k ∈ hkeys h.
Proof.
  unfold hexists, hkeys. rewrite bool_decide_eq_true.
  induction h as [|[k' v'] h IH]; cbn.
  - split; [by intros [? ?] | by intros ?%elem_of_nil].
  - rewrite elem_of_cons. destruct (decide (k' = k)) as [->|Hne].
    + split; [by left | by eexists].
    + rewrite IH. split; [by right | by intros [?|?]].
Qed.

Lemma not_elem_of_hkeys_hdel {V} k (h : list (string * V)) : k ∉ hkeys (hdel k h).
Proof.
  unfold hkeys, hdel. intros Hin.
  apply list_elem_of_fmap in Hin as ([k' v] & -> & Hin).
  by apply list_elem_of_filter in Hin as [? _].
Qed.

Lemma hdel_subseteq {V} k (h : list (string * V)) : hdel k h ⊆ h.
Proof. intros x Hx. by apply list_elem_of_filter in Hx as [_ ?]. Qed.

(** The signalling loop of [_stop_job] writes nothing. *)
Lemma signalling_launches (pids : list json) :
  stable launches
    (for_each pids (λ pid, pgid ← Sys.os_getpgid pid; Sys.os_killpg pgid) : M W unit).
Proof.
  stable_prim;
    first [ reflexivity
          | apply launches_world
          | apply launches_emit; reflexivity ].
Qed.

(** How [_stop_job] ends: with the record deleted, last, or with the store
    as it was. *)
Lemma stop_job_inv job_name pid_list (s : State W) r s' :
  _stop_job job_name pid_list s = (r, s') →
  _shutdown_count s' = _shutdown_count s
  ∧ ∃ evs, os_only evs
    ∧ match r with
      | Ok _ => trace s' = trace s ++ evs ++ [EHDelRunning job_name]
                ∧ redis s' = apply_event (EHDelRunning job_name) (redis s)
      | Raise _ => trace s' = trace s ++ evs ∧ redis s' = redis s
      end.
Proof.
  unfold _stop_job. rewrite bind_run. unfold iter.
  destruct (iterate pid_list) as [pids|]; cbn [lift_opt].
  - cbn. rewrite bind_run.
    destruct (for_each pids _ s) as [[[]|x] s1] eqn:E; intros E';
      apply signalling_launches in E as (Er & Ec & evs & Et & Hq).
    + injection E' as <- <-. split; [done|]. exists evs. split; [done|].
      cbn. rewrite Et, Er, <- app_assoc. done.
    + injection E' as <- <-. split; [done|]. by exists evs.
  - intros [= <- <-]. split; [done|]. exists []. split; [constructor|].
    by rewrite app_nil_r.
Qed.

(** A ticket for a job that has a record. *)
Lemma handle_running_run job_name stored (s : State W) :
  dict_get job_name (RUNNING_JOB (redis s)) = Some stored →
  handle job_name s
  = match json_loads (Some stored) with
    | inl x => (Raise x, s)
    | inr pid_list =>
        match _stop_job job_name pid_list s with
        | (Ok _, s1) => Connection.lrem_killed job_name s1
        | (Raise x, s1) => (Raise x, s1)
        end
    end.
Proof.
  intros Hrec. unfold handle, Connection.hexists_running, Connection.hget_running.
  unfold hexists. rewrite !bind_run. cbn [gets]. rewrite Hrec.
  rewrite bool_decide_eq_true_2 by by eexists.
  rewrite !bind_run. cbn [gets]. rewrite Hrec.
  destruct (json_loads (Some stored)) as [x|pid_list]; [reflexivity|].
  reflexivity.
Qed.

(** How handling one ticket ends. *)
Lemma handle_post job_name (s : State W) r s' :
  handle job_name s = (r, s') →
  match r with
  | Ok _ =>
      KILLED_JOB_TICKETS (redis s') = lrem job_name (KILLED_JOB_TICKETS (redis s))
      ∧ (job_name ∉ hkeys (RUNNING_JOB (redis s')))
      ∧ RUNNING_JOB (redis s') ⊆ RUNNING_JOB (redis s)
  | Raise _ =>
      redis s' = redis s
      ∧ job_name ∈ hkeys (RUNNING_JOB (redis s))
      ∧ ∃ evs, trace s' = trace s ++ evs ∧ os_only evs
  end.
Proof.
  destruct (dict_get job_name (RUNNING_JOB (redis s))) as [stored|] eqn:Hrec.
  - assert (job_name ∈ hkeys (RUNNING_JOB (redis s))) as Hin.
    { apply hexists_hkeys. unfold hexists. rewrite Hrec.
      apply bool_decide_eq_true_2. by eexists. }
    rewrite (handle_running_run _ _ _ Hrec).
    destruct (json_loads (Some stored)) as [x|pid_list].
    + intros [= <- <-]. repeat split; [done|]. exists []. split; [|constructor].
      by rewrite app_nil_r.
    + destruct (_stop_job job_name pid_list s) as [[[]|x] s1] eqn:Es;
        apply stop_job_inv in Es as (_ & evs & Hq & Et & Er); intros [= <- <-].
      * store_cbn. cbn. rewrite Er. store_cbn. repeat split.
        -- apply not_elem_of_hkeys_hdel.
        -- apply hdel_subseteq.
      * repeat split; [done | done |]. by exists evs.
  - assert (hexists job_name (RUNNING_JOB (redis s)) = false) as Hno.
    { unfold hexists. rewrite Hrec. apply bool_decide_eq_false_2. by intros [? ?]. }
    rewrite (handle_not_running _ _ Hno). intros [= <- <-]. store_cbn.
    repeat split; [|done]. intros Hin. apply hexists_hkeys in Hin. congruence.
Qed.

Lemma hkeys_subseteq {V} (h h' : list (string * V)) : h ⊆ h' → hkeys h ⊆ hkeys h'.
Proof.
  intros Hsub k Hk. unfold hkeys in *.
  apply list_elem_of_fmap in Hk as (kv & -> & Hkv).
  apply list_elem_of_fmap_2. by apply Hsub.
Qed.

Lemma for_each_handle_ok tickets : ∀ (s s' : State W),
  for_each tickets handle s = (Ok tt, s') →
  (∀ t, t ∈ tickets →
        (t ∉ KILLED_JOB_TICKETS (redis s')) ∧ (t ∉ hkeys (RUNNING_JOB (redis s'))))
  ∧ (∀ x, x ∈ KILLED_JOB_TICKETS (redis s) → x ∉ tickets →
          x ∈ KILLED_JOB_TICKETS (redis s'))
  ∧ KILLED_JOB_TICKETS (redis s') ⊆ KILLED_JOB_TICKETS (redis s)
  ∧ RUNNING_JOB (redis s') ⊆ RUNNING_JOB (redis s).
Proof.
  induction tickets as [|t tickets IH]; intros s s' E.
  - injection E as <-. split; [by intros t0 ?%elem_of_nil|]. repeat split; done.
  - rewrite for_each_cons in E. destruct (handle t s) as [[[]|x] s1] eqn:E1; [|done].
    apply handle_post in E1 as (Hk1 & Hr1 & Hsub1).
    destruct (IH _ _ E) as (Hgone & Hkept & Hksub & Hrsub).
    split; [|split; [|split]].
    + intros t' Ht'. apply elem_of_cons in Ht' as [->|Ht']; [|by apply Hgone].
      split.
      * intros Hin. apply Hksub in Hin. rewrite Hk1 in Hin.
        by apply not_elem_of_lrem in Hin.
      * intros Hin. apply Hr1. revert Hin. by apply hkeys_subseteq.
    + intros x Hx Hnot. apply not_elem_of_cons in Hnot as [Hne Hnot].
      apply Hkept; [|done]. rewrite Hk1. apply list_elem_of_filter. by split.
    + etrans; [exact Hksub|]. rewrite Hk1. apply lrem_subseteq.
    + by etrans.
Qed.

(** X9. A kill cycle that returns has drained the kill list, and none of
    the jobs it was asked to kill has a record any more. *)
Theorem kill_cycle_drains_the_list (s s' : State W) :
  _check_kill_ticket s = (Ok tt, s') →
  KILLED_JOB_TICKETS (redis s') = []
  ∧ ∀ t, t ∈ KILLED_JOB_TICKETS (redis s) → t ∉ hkeys (RUNNING_JOB (redis s')).
Proof.
  rewrite check_kill_ticket_run. intros E.
  apply for_each_handle_ok in E as (Hgone & _ & Hksub & _).
  split; [|intros t Ht; exact (proj2 (Hgone t Ht))].
  apply elem_of_nil_inv. intros x Hx. exact (proj1 (Hgone x (Hksub x Hx)) Hx).
Qed.

(** X10. A kill cycle that raises does so at a ticket for a job that has a
    record, after having handled the tickets before it.  Handling the
    failing ticket has written nothing: the record is still there and the
    ticket is still in the kill list, though process groups may have been
    signalled. *)
Theorem kill_failure_keeps_record_and_ticket (s s' : State W) (x : exn) :
  _check_kill_ticket s = (Raise x, s') →
  ∃ before bad after s1 evs,
    KILLED_JOB_TICKETS (redis s) = before ++ bad :: after
    ∧ for_each before handle s = (Ok tt, s1)
    ∧ redis s' = redis s1
    ∧ bad ∈ hkeys (RUNNING_JOB (redis s'))
    ∧ bad ∈ KILLED_JOB_TICKETS (redis s')
    ∧ trace s' = trace s1 ++ evs
    ∧ os_only evs.
Proof.
  rewrite check_kill_ticket_run. intros E.
  apply for_each_raise_inv in E as (before & bad & after & s1 & Hl & Eb & Ebad).
  apply handle_post in Ebad as (Er & Hin & evs & Et & Hq).
  exists before, bad, after, s1, evs. rewrite Er. repeat split; try done.
  pose proof (for_each_handle_ok _ _ _ Eb) as (Hgone & Hkept & _ & _).
  apply Hkept.
  - rewrite Hl. apply elem_of_app. right. by left.
  - intros Hb. exact (proj2 (Hgone bad Hb) Hin).
Qed.

(** ** What the kill processor leaves alone *)

#[local] Instance killer_frame_preorder : PreOrder (@killer_frame W).
Proof.
  split.
  - intros s. repeat split; try done. exists []. by rewrite app_nil_r.
  - intros s1 s2 s3 (Hd1 & Hs1 & Hc1 & Hp1 & Hk1 & Hr1 & evs1 & Et1 & He1)
                    (Hd2 & Hs2 & Hc2 & Hp2 & Hk2 & Hr2 & evs2 & Et2 & He2).
    repeat split; try congruence; try (by etrans).
    exists (evs1 ++ evs2). split; [by rewrite Et2, Et1, app_assoc | by apply Forall_app].
Qed.

Lemma killer_frame_emit e (s : State W) :
  killer_event e = true →
  killer_frame s (mkState (redis s) (world s) (trace s ++ [e]) (_shutdown_count s)).
Proof. intros He. repeat split; try done. exists [e]. split; [done | by constructor]. Qed.

Lemma killer_frame_world w (s : State W) : killer_frame s (set_world w s).
Proof. repeat split; try done. exists []. by rewrite app_nil_r. Qed.

Lemma killer_frame_write e (s : State W) :
  killer_event e = true →
  killer_frame s (set_redis (apply_event e (redis s)) s).
Proof.
  intros He. destruct e; try discriminate He; repeat split; try done.
  all: try (exists []; by rewrite app_nil_r).
  all: first [apply hdel_subseteq | apply lrem_subseteq].
Qed.



(** X11. Whatever it finds, and whether it returns or raises, a kill cycle
    leaves the job details, the settings and the idle counter as they
    are; the two ticket lists and the running hash only lose entries; it
    starts no process and closes none, all it does to processes is signal
    process groups. *)
Theorem kill_cycle_keeps_to_its_own (s : State W) :
  let s' := (_check_kill_ticket s).2 in
  JOB_DETAILS (redis s') = JOB_DETAILS (redis s)
  ∧ SETTING (redis s') = SETTING (redis s)
  ∧ _shutdown_count s' = _shutdown_count s
  ∧ PENDING_JOB_TICKETS (redis s') ⊆ PENDING_JOB_TICKETS (redis s)
  ∧ KILLED_JOB_TICKETS (redis s') ⊆ KILLED_JOB_TICKETS (redis s)
  ∧ RUNNING_JOB (redis s') ⊆ RUNNING_JOB (redis s)
  ∧ ∃ evs, trace s' = trace s ++ evs ∧ Forall (λ e, killer_event e = true) evs.
Proof.
  cbn zeta. destruct (_check_kill_ticket s) as [r s'] eqn:E.
  assert (stable killer_frame _check_kill_ticket) as Hst.
  { unfold _check_kill_ticket, handle, _stop_job.
    stable_prim;
      first [ reflexivity
            | apply killer_frame_world
            | apply killer_frame_emit; reflexivity
            | apply killer_frame_write; reflexivity ]. }
  exact (Hst _ _ _ E).
Qed.
End killer_more.

(** * The agents together *)

Section together.
Context `{OS W}.

(** ** The master and the tracker *)

Lemma cycle_undisturbed e (s : State W) agent_pid :
  quiet_store agent_pid (redis s) →
  preserves (quiet_store agent_pid) e →
  JobTrackingAgent.cycle e s = JobTrackingAgent._close_process_cli (woken e s)
  ∧ quiet_store agent_pid (redis (woken e s)).
Proof.
  intros Hq He. pose proof (He (redis s) (world s) Hq) as Hq'.
  destruct Hq as ((Hrun & _) & _).
  rewrite (cycle_run e s s (check_job_status_nothing s Hrun)).
  split; [|exact Hq']. destruct Hq' as (_ & Hk & _).
  unfold setting_is in Hk. cbn. rewrite Hk. reflexivity.
Qed.

Lemma run_undisturbed (schedule : list (external W)) agent_pid : ∀ s,
  quiet_store agent_pid (redis s) →
  Forall (preserves (quiet_store agent_pid)) schedule →
  schedule ≠ [] →
  _shutdown_count s + Z.of_nat (length schedule) = 5 →
  ∃ s', JobTrackingAgent.run schedule s = (Ok tt, s')
        ∧ trace s' = trace s ++ [ECloseByPid (JInt agent_pid) true;
                                 EHSetSetting "agent_status" (Num 0)]
        ∧ setting_is "agent_status" 0 (redis s').
Proof.
  induction schedule as [|e schedule IH]; intros s Hq Hs Hne Hc; [done|].
  apply Forall_cons in Hs as [He Hs]. cbn [length] in Hc.
  destruct (cycle_undisturbed e s agent_pid Hq He) as [Ecyc Hq'].
  unfold JobTrackingAgent.run in *. rewrite for_each_cons, Ecyc.
  destruct schedule as [|e' schedule].
  - rewrite (close_process_cli_fire _ agent_pid);
      [|apply Hq' | cbn in *; lia | apply Hq'].
    eexists. split; [reflexivity|]. cbn in *. split; [done|].
    unfold setting_is. cbn. apply lookup_insert_eq.
  - rewrite close_process_cli_idle; [|apply Hq' | cbn in *; lia].
    destruct (IH (set_shutdown_count (_shutdown_count (woken e s) + 1) (woken e s)))
      as (s' & Erun & Etr & Hst); [exact Hq' | done | done | cbn in *; lia |].
    exists s'. done.
Qed.

(** X12. An orchestrator with nothing to do shuts itself down.  The master
    publishes its pid; if the store is idle with no keep-alive override,
    and the others leave it so and do not touch these two settings, then
    the fifth cycle of the tracker closes the process tree of that very
    pid and sets [agent_status] to 0, and nothing else is done. *)
Theorem master_left_alone_is_closed
    (s : State W) (pid : Z) (schedule : list (external W)) :
  idle (redis s) →
  setting_is "keep_agent_alive" 0 (redis s) →
  _shutdown_count s = 0 →
  length schedule = 5%nat →
  Forall (preserves (quiet_store pid)) schedule →
  ∃ s', (MasterAgent.__init__ pid ;; JobTrackingAgent.run schedule) s = (Ok tt, s')
        ∧ trace s' = trace s ++ [EHSetSetting "agent_pid" (Num pid);
                                 ECloseByPid (JInt pid) true;
                                 EHSetSetting "agent_status" (Num 0)]
        ∧ setting_is "agent_status" 0 (redis s').
Proof.
  intros Hidle Hk Hc Hlen Hs.
  destruct (MasterAgent.__init__ pid s) as [r s0] eqn:E0.
  assert (r = Ok tt ∧ quiet_store pid (redis s0) ∧ _shutdown_count s0 = 0
          ∧ trace s0 = trace s ++ [EHSetSetting "agent_pid" (Num pid)])
    as (-> & Hq & Hc0 & Et0).
  { unfold MasterAgent.__init__ in E0. autounfold with agents in E0. run_m.
    injection E0 as <- <-. destruct Hidle as [Hr Hp].
    repeat split; try done; unfold setting_is in *; cbn.
    - by rewrite lookup_insert_ne.
    - apply lookup_insert_eq. }
  destruct (run_undisturbed schedule pid s0) as (s' & E & Et & Hst);
    [done | done | by intros -> | lia |].
  exists s'. rewrite (bind_ok _ _ _ _ _ E0). split; [exact E|].
  split; [|done]. by rewrite Et, Et0, <- app_assoc.
Qed.

(** ** The scheduler and the tracker *)

Lemma written_record_running evs :
  shell_pids_of evs ≠ [] →
  written_record evs = running_record (shell_pids_of evs) (command_pids_of evs).
Proof. unfold written_record, pid_record. by destruct (shell_pids_of evs). Qed.

(** X13. From admission to reaping.  A job with at least one instance is
    queued alone, nothing runs and the cap leaves room.  If the scheduler
    cycle returns, it has started and recorded the job, and the record is
    one the tracker can read: in any later state of the processes in which
    none of the command pids resolved at the launch exists, the liveness
    pass deletes the record and closes exactly the shells the scheduler
    started, leaving the store idle. *)
Theorem started_then_reaped
    (s s1 : State W) (name : string) (components : list (string * (Z * string)))
    (cap : Z) :
  PENDING_JOB_TICKETS (redis s) = [name] →
  RUNNING_JOB (redis s) = [] →
  JOB_DETAILS (redis s) !! name = Some (Doc (job_spec name components)) →
  setting_is "parallel_level" cap (redis s) →
  cap > 0 →
  (0 < total_instances components)%nat →
  PendingJobAgent._check_pending_ticket s = (Ok tt, s1) →
  ∃ evs,
    let record :=
      Doc (JDict [("shell_pids", JList (JInt <$> shell_pids_of evs));
                  ("command_pids", JList (JInt <$> command_pids_of evs))]) in
    trace s1 = trace s ++ evs ++ [EHSetRunning name record; ELRemPending name]
    ∧ length (shell_pids_of evs) = total_instances components
    ∧ RUNNING_JOB (redis s1) = [(name, record)]
    ∧ ∀ w, existsb (pid_exists w) (command_pids_of evs) = false →
           ∃ s2, JobTrackingAgent._check_job_status (set_world w s1) = (Ok tt, s2)
                 ∧ idle (redis s2)
                 ∧ trace s2 = trace s1 ++ [EHDelRunning name;
                                           ECloseByPid (JList (JInt <$> shell_pids_of evs)) false].
Proof.
  intros Hp Hr Hd Hs Hcap Hpos E.
  rewrite check_pending_ticket_run, Hp, for_each_cons in E.
  destruct (PendingJobAgent.examine name s) as [[[]|x] s2] eqn:E1; [|discriminate].
  injection E as <-.
  destruct (examine_spec name components cap s s2 Hd Hs) as
    (evs & s1 & -> & Hq & Hsp & Hres & Hlen & _ & Et & Er & _);
    [rewrite Hr; apply Hcap | exact E1 |].
  assert (shell_pids_of evs ≠ []) as Hne.
  { intros Hnil. rewrite Hnil in Hlen. cbn in Hlen. lia. }
  assert (RUNNING_JOB (redis (ticket_removed name s1))
          = [(name, running_record (shell_pids_of evs) (command_pids_of evs))]) as Hrun.
  { store_cbn. rewrite Er. store_cbn. rewrite Hr. cbn.
    by rewrite written_record_running. }
  exists evs. cbn zeta.
  change (Doc (JDict [("shell_pids", JList (JInt <$> shell_pids_of evs));
                      ("command_pids", JList (JInt <$> command_pids_of evs))]))
    with (running_record (shell_pids_of evs) (command_pids_of evs)).
  repeat split.
  - cbn [trace ticket_removed]. rewrite Et, <- !app_assoc.
    by rewrite written_record_running.
  - exact Hlen.
  - exact Hrun.
  - intros w Hdead. eexists. split.
    + rewrite check_job_status_run. cbn [set_world redis]. rewrite Hrun.
      rewrite for_each_cons, check_job_finished by exact Hdead. reflexivity.
    + split; [|reflexivity]. split.
      * cbn [reaped redis apply_event RUNNING_JOB set_world]. rewrite Hrun.
        unfold hdel. by rewrite filter_cons_False, filter_nil by (cbn; intros Hn; by apply Hn).
      * cbn [reaped redis apply_event PENDING_JOB_TICKETS set_world].
        store_cbn. rewrite Er. store_cbn. rewrite Hp. by apply lrem_head, not_elem_of_nil.
Qed.

(** ** The kill processor and the scheduler *)



End together.

(** * The further properties on the examples *)

Lemma admission_first_come_first_served_witness :
  ∃ evs,
    trace jobs3_examined = trace (boot store3) ++ evs
    ∧ recorded evs = ["job1"; "job2"]
    ∧ length (spawned evs) = 4%nat
    ∧ hkeys (RUNNING_JOB (redis jobs3_examined)) ≡ₚ [] ++ ["job1"; "job2"]
    ∧ PENDING_JOB_TICKETS (redis jobs3_examined) = ["job3"].
Proof.
  apply (admission_first_come_first_served (boot store3) jobs3_examined jobs3 2).
  - reflexivity.
  - by compute_done.
  - intros job Hjob. repeat (apply elem_of_cons in Hjob as [->|Hjob]); try reflexivity.
    by apply elem_of_nil in Hjob.
  - intros t _ Hin. by apply elem_of_nil in Hin.
  - reflexivity.
  - vm_compute. reflexivity.
Defined.

Example two_of_three_started :
  hkeys (RUNNING_JOB (redis (PendingJobAgent._check_pending_ticket (boot store3)).2))
  = ["job1"; "job2"]
  ∧ PENDING_JOB_TICKETS (redis (PendingJobAgent._check_pending_ticket (boot store3)).2)
    = ["job3"].
Proof. split; reflexivity. Qed.

Lemma scheduler_failure_writes_nothing_witness :
  ∃ before bad after s1 evs,
    PENDING_JOB_TICKETS (redis (boot store_half)) = before ++ bad :: after
    ∧ for_each before PendingJobAgent.examine (boot store_half) = (Ok tt, s1)
    ∧ PendingJobAgent.examine bad s1
      = (Raise (KeyError "command"),
         (PendingJobAgent._check_pending_ticket (boot store_half)).2)
    ∧ redis (PendingJobAgent._check_pending_ticket (boot store_half)).2 = redis s1
    ∧ trace (PendingJobAgent._check_pending_ticket (boot store_half)).2 = trace s1 ++ evs
    ∧ os_only evs.
Proof.
  apply (scheduler_failure_writes_nothing (boot store_half)).
  reflexivity.
Defined.

(** The driver of [job_half] was started all the same. *)
Example half_started :
  shell_pids_of (trace (PendingJobAgent._check_pending_ticket (boot store_half)).2) = [100]
  ∧ RUNNING_JOB (redis (PendingJobAgent._check_pending_ticket (boot store_half)).2) = [].
Proof. split; reflexivity. Qed.

Lemma nameless_job_is_not_started_witness :
  ∃ x, PendingJobAgent._start_job job_nameless (boot store1) = (Raise x, boot store1).
Proof. apply (nameless_job_is_not_started job_nameless (boot store1)). reflexivity. Defined.

Lemma no_ticket_no_record_witness :
  dict_get "job9" (RUNNING_JOB (redis (PendingJobAgent._check_pending_ticket (boot store2)).2))
  = dict_get "job9" (RUNNING_JOB (redis (boot store2)))
  ∧ ∃ evs, trace (PendingJobAgent._check_pending_ticket (boot store2)).2
           = trace (boot store2) ++ evs
           ∧ ∀ v, EHSetRunning "job9" v ∉ evs.
Proof.
  apply (no_ticket_no_record (boot store2) "job9").
  - by compute_done.
  - intros t Ht j name Hj Hn.
    repeat (apply elem_of_cons in Ht as [->|Ht]); [| |by apply elem_of_nil in Ht].
    all: vm_compute in Hj; injection Hj as <-; vm_compute in Hn; by injection Hn as <-.
Defined.

Lemma second_admission_replaces_record_witness :
  ∃ evs,
    let record :=
      Doc (record_document (shell_pids_of evs) (command_pids_of evs)) in
    trace job1_started_again
    = trace job1_again ++ evs ++ [EHSetRunning "job1" record; ELRemPending "job1"]
    ∧ os_only evs
    ∧ (spawned evs).*1
      = instances (job_local_path (JStr "job1"))
                  [("driver", (1, "sleep 1")); ("worker", (2, "sleep 1"))]
    ∧ dict_get "job1" (RUNNING_JOB (redis job1_started_again)) = Some record
    ∧ hkeys (RUNNING_JOB (redis job1_started_again))
      ≡ₚ hkeys (RUNNING_JOB (redis job1_again)).
Proof.
  apply (second_admission_replaces_record job1_again job1_started_again "job1" _ 2).
  - reflexivity.
  - reflexivity.
  - reflexivity.
  - vm_compute. left.
  - vm_compute. reflexivity.
Defined.

(** The second launch took new pids, and only those are recorded. *)
Example job1_record_after_second_admission :
  RUNNING_JOB (redis (PendingJobAgent.examine "job1" job1_again).2)
  = [("job1", running_record [106; 108; 110] [107; 109; 111])].
Proof. reflexivity. Qed.

Lemma liveness_pass_reaps_the_finished_witness :
  ∃ s',
    JobTrackingAgent._check_job_status job1_finished = (Ok tt, s')
    ∧ RUNNING_JOB (redis s')
      = record_entry <$> filter (λ j, alive (world job1_finished) j = true) job1_pids
    ∧ trace s'
      = trace job1_finished
        ++ (filter (λ j, alive (world job1_finished) j = false) job1_pids ≫= reap_events).
Proof.
  apply (liveness_pass_reaps_the_finished job1_finished job1_pids).
  - reflexivity.
  - by compute_done.
  - intros job job' p w Hj Hj' Hp.
    apply list_elem_of_singleton in Hj as ->. apply list_elem_of_singleton in Hj' as ->.
    cbn in Hp |- *. apply bool_decide_ext. rewrite list_elem_of_filter.
    split; [by intros [_ ?]|]. intros Hin. split; [|done].
    repeat (apply elem_of_cons in Hp as [->|Hp]); [by compute_done..|].
    by apply elem_of_nil in Hp.
Defined.

Example job1_reaped :
  RUNNING_JOB (redis (JobTrackingAgent._check_job_status job1_finished).2) = []
  ∧ Host.live (world (JobTrackingAgent._check_job_status job1_finished).2) = [].
Proof. split; reflexivity. Qed.

Lemma kill_cycle_drains_the_list_witness :
  KILLED_JOB_TICKETS (redis (KilledJobAgent._check_kill_ticket (boot store_kill_pending)).2) = []
  ∧ ∀ t, t ∈ KILLED_JOB_TICKETS (redis (boot store_kill_pending)) →
         t ∉ hkeys (RUNNING_JOB (redis (KilledJobAgent._check_kill_ticket
                                          (boot store_kill_pending)).2)).
Proof.
  apply (kill_cycle_drains_the_list (boot store_kill_pending)).
  reflexivity.
Defined.

Lemma kill_failure_keeps_record_and_ticket_witness :
  ∃ before bad after s1 evs,
    KILLED_JOB_TICKETS (redis (with_kill_ticket "job1" job1_running))
    = before ++ bad :: after
    ∧ for_each before KilledJobAgent.handle (with_kill_ticket "job1" job1_running)
      = (Ok tt, s1)
    ∧ redis (with_kill_ticket "job1" job1_running) = redis s1
    ∧ bad ∈ hkeys (RUNNING_JOB (redis (with_kill_ticket "job1" job1_running)))
    ∧ bad ∈ KILLED_JOB_TICKETS (redis (with_kill_ticket "job1" job1_running))
    ∧ trace (with_kill_ticket "job1" job1_running) = trace s1 ++ evs
    ∧ os_only evs.
Proof.
  apply (kill_failure_keeps_record_and_ticket
           (with_kill_ticket "job1" job1_running)
           (with_kill_ticket "job1" job1_running) TypeError).
  vm_compute. reflexivity.
Defined.

Lemma master_left_alone_is_closed_witness :
  ∃ s', (MasterAgent.__init__ 777 ;;
         JobTrackingAgent.run (replicate 5 left_alone)) (boot quiet_redis) = (Ok tt, s')
        ∧ trace s' = trace (boot quiet_redis)
                     ++ [EHSetSetting "agent_pid" (Num 777);
                         ECloseByPid (JInt 777) true;
                         EHSetSetting "agent_status" (Num 0)]
        ∧ setting_is "agent_status" 0 (redis s').
Proof.
  apply (master_left_alone_is_closed (boot quiet_redis) 777 (replicate 5 left_alone)).
  - split; reflexivity.
  - reflexivity.
  - reflexivity.
  - reflexivity.
  - apply Forall_replicate. intros r w Hq. exact Hq.
Defined.

Lemma started_then_reaped_witness :
  ∃ evs,
    let record :=
      Doc (JDict [("shell_pids", JList (JInt <$> shell_pids_of evs));
                  ("command_pids", JList (JInt <$> command_pids_of evs))]) in
    trace job1_running
    = trace (boot store1) ++ evs ++ [EHSetRunning "job1" record; ELRemPending "job1"]
    ∧ length (shell_pids_of evs) = 3%nat
    ∧ RUNNING_JOB (redis job1_running) = [("job1", record)]
    ∧ ∀ w, existsb (pid_exists w) (command_pids_of evs) = false →
           ∃ s2, JobTrackingAgent._check_job_status (set_world w job1_running) = (Ok tt, s2)
                 ∧ idle (redis s2)
                 ∧ trace s2 = trace job1_running
                              ++ [EHDelRunning "job1";
                                  ECloseByPid (JList (JInt <$> shell_pids_of evs)) false].
Proof.
  apply (started_then_reaped (boot store1) job1_running "job1"
           [("driver", (1, "sleep 1")); ("worker", (2, "sleep 1"))] 1).
  - reflexivity.
  - reflexivity.
  - reflexivity.
  - reflexivity.
  - reflexivity.
  - vm_compute. lia.
  - vm_compute. reflexivity.
Defined.

Lemma second_cycle_changes_nothing_witness :
  PendingJobAgent._check_pending_ticket jobs3_examined = (Ok tt, jobs3_examined).
Proof.
  apply (second_cycle_changes_nothing (boot store3) jobs3_examined jobs3 2).
  - reflexivity.
  - by compute_done.
  - intros job Hjob. repeat (apply elem_of_cons in Hjob as [->|Hjob]); try reflexivity.
    by apply elem_of_nil in Hjob.
  - intros t _ Hin. by apply elem_of_nil in Hin.
  - reflexivity.
  - vm_compute. reflexivity.
Defined.



(** A kill ticket for a queued job behind one for a job that does not let
    itself be killed: the cycle raises at the first and the second is not
    looked at. *)
Example kill_ticket_behind_running_job :
  KilledJobAgent._check_kill_ticket both_killed = (Raise TypeError, both_killed)
  ∧ PENDING_JOB_TICKETS (redis both_killed) = ["job2"]
  ∧ KILLED_JOB_TICKETS (redis both_killed) = ["job1"; "job2"].
Proof. vm_compute. repeat split. Qed.

